(** * simple_whisper_solution.py: a model of the Fethr Whisper helper script

    The script is glue around side effects: the file system, two HTTP
    requests, a pip subprocess, the import system, argparse and the whisper
    library.  The model makes these explicit.  What the outside world
    answers is an [Env] (read only during a run); what the script changes is
    a [State] (existing paths, importable modules, the trace of observable
    events).  Python code becomes a computation in the monad [M], which
    threads the state and propagates exceptions the way Python does; the
    script's functions keep their names and their order of statements.

    Abstractions, stated once:
    - the file system is the set of existing paths; [os.makedirs] with
      [exist_ok=True] adds the path and does not fail;
    - an import either succeeds or raises [ModuleNotFoundError], an
      [ImportError]; a pip run says which modules are importable after it;
    - every exception the outside world raises is an [Exception];
    - rendering of the progress bar and of the float in the size line is
      left symbolic ([EBarOpen], [EBarClose], [EPrintSize]);
    - [json.dumps] of a serialisable value is represented by the value;
    - strings are byte strings; digits and white space are the ASCII ones;
    - paths are POSIX paths. *)

From stdpp Require Import base gmap strings pretty list.
From Stdlib Require Import ZArith Ascii String Lia.

#[local] Set Warnings "-register-all".

Local Open Scope string_scope.
Local Open Scope list_scope.
Local Open Scope Z_scope.

(** ** Strings *)

Module Str.

(** [needle in haystack] for Python strings. *)
Fixpoint contains (needle hay : string) : bool :=
  String.prefix needle hay ||
  match hay with
  | EmptyString => false
  | String _ hay' => contains needle hay'
  end.

Fixpoint mem_char (c : ascii) (s : string) : bool :=
  match s with
  | EmptyString => false
  | String d s' => Ascii.eqb c d || mem_char c s'
  end.

(** [s.split(c, 1)] when [c] occurs in [s]: the text before and after the
    first occurrence. *)
Fixpoint split_first (c : ascii) (s : string) : string * string :=
  match s with
  | EmptyString => (EmptyString, EmptyString)
  | String d s' =>
      if Ascii.eqb c d then (EmptyString, s')
      else let '(a, b) := split_first c s' in (String d a, b)
  end.

Definition is_digit (c : ascii) : bool :=
  let n := nat_of_ascii c in (48 <=? n)%nat && (n <=? 57)%nat.

Definition digit_value (c : ascii) : Z := Z.of_nat (nat_of_ascii c) - 48.

Fixpoint all_digits (s : string) : bool :=
  match s with
  | EmptyString => true
  | String c s' => is_digit c && all_digits s'
  end.

(** C-locale white space, which [int()] skips around an ASCII literal. *)
Definition is_space (c : ascii) : bool :=
  let n := nat_of_ascii c in
  ((9 <=? n)%nat && (n <=? 13)%nat) || (n =? 32)%nat.

Fixpoint lstrip (s : string) : string :=
  match s with
  | String c s' => if is_space c then lstrip s' else s
  | EmptyString => EmptyString
  end.

Definition rstrip (s : string) : string :=
  String.rev (lstrip (String.rev s)).

Definition strip (s : string) : string := rstrip (lstrip s).

Definition is_sep (c : ascii) : bool := Ascii.eqb c "/"%char.

Fixpoint lstrip_sep (s : string) : string :=
  match s with
  | String c s' => if is_sep c then lstrip_sep s' else s
  | EmptyString => EmptyString
  end.

(** [s.rstrip('/')] *)
Definition rstrip_sep (s : string) : string :=
  String.rev (lstrip_sep (String.rev s)).

Fixpoint all_sep (s : string) : bool :=
  match s with
  | EmptyString => true
  | String c s' => is_sep c && all_sep s'
  end.

(** [p[:p.rfind('/') + 1]] *)
Fixpoint upto_last_sep (p : string) : string :=
  match p with
  | EmptyString => EmptyString
  | String c p' =>
      if mem_char "/"%char p' then String c (upto_last_sep p')
      else if is_sep c then String c EmptyString
      else EmptyString
  end.

Fixpoint ends_with_sep (s : string) : bool :=
  match s with
  | EmptyString => false
  | String c EmptyString => is_sep c
  | String _ s' => ends_with_sep s'
  end.

Definition hex_digit (n : nat) : ascii :=
  ascii_of_nat (if (n <? 10)%nat then 48 + n else 87 + n)%nat.

(** [repr(s)] for a [str]: quote choice and escapes of CPython; bytes
    above 127 are kept as they are. *)
Definition repr_char (quote : ascii) (c : ascii) : string :=
  let n := nat_of_ascii c in
  if Ascii.eqb c quote || Ascii.eqb c "\"%char
  then String "\"%char (String c EmptyString)
  else if (n =? 9)%nat then "\t"
  else if (n =? 10)%nat then "\n"
  else if (n =? 13)%nat then "\r"
  else if (n <? 32)%nat || (n =? 127)%nat
  then String "\"%char (String "x"%char
         (String (hex_digit (n / 16)) (String (hex_digit (n mod 16)) EmptyString)))
  else String c EmptyString.

Fixpoint repr_body (quote : ascii) (s : string) : string :=
  match s with
  | EmptyString => EmptyString
  | String c s' => repr_char quote c +:+ repr_body quote s'
  end.

Definition dquote : ascii := ascii_of_nat 34.
Definition squote : ascii := ascii_of_nat 39.

Definition repr (s : string) : string :=
  let quote :=
    if mem_char squote s && negb (mem_char dquote s) then dquote else squote in
  String quote (repr_body quote s) +:+ String quote EmptyString.

End Str.

(** ** Python values and exceptions *)

(** The values that cross the boundary to the whisper library and to
    [json.dumps].  [PObject] is any object [json.dumps] cannot serialise
    (a tensor, a numpy scalar); it carries its type name. *)
Inductive pyval : Type :=
| PNone
| PBool (b : bool)
| PInt (z : Z)
| PFloat (text : string)
| PStr (s : string)
| PList (items : list pyval)
| PDict (items : list (string * pyval))
| PObject (type_name : string).

(** A Python [dict] with string keys, in insertion order. *)
Abbreviation pydict := (list (string * pyval)).

Fixpoint dict_lookup (k : string) (d : pydict) : option pyval :=
  match d with
  | [] => None
  | (k', v) :: d' => if String.eqb k k' then Some v else dict_lookup k d'
  end.

(** [d.get(k, default)] *)
Definition dict_get (k : string) (default : pyval) (d : pydict) : pyval :=
  match dict_lookup k d with
  | Some v => v
  | None => default
  end.

(** An exception in flight.  Every [PyExc] is an instance of [Exception];
    [SystemExit] derives from [BaseException] only, so [except Exception]
    lets it through. *)
Inductive exn : Type :=
| PyExc (cls : string) (msg : string)
| SystemExit (code : Z).

Definition is_Exception (e : exn) : bool :=
  match e with
  | PyExc _ _ => true
  | SystemExit _ => false
  end.

Definition is_ImportError (e : exn) : bool :=
  match e with
  | PyExc cls _ => String.eqb cls "ImportError" || String.eqb cls "ModuleNotFoundError"
  | SystemExit _ => false
  end.

(** [str(e)] *)
Definition str_exn (e : exn) : string :=
  match e with
  | PyExc _ msg => msg
  | SystemExit code => pretty code
  end.

(** The first object in [v], in traversal order, that [json.dumps] rejects. *)
Fixpoint json_reject (v : pyval) : option string :=
  match v with
  | PObject t => Some t
  | PList items =>
      (fix go (l : list pyval) : option string :=
         match l with
         | [] => None
         | x :: l' => match json_reject x with
                      | Some t => Some t
                      | None => go l'
                      end
         end) items
  | PDict items =>
      (fix go (l : pydict) : option string :=
         match l with
         | [] => None
         | (_, x) :: l' => match json_reject x with
                           | Some t => Some t
                           | None => go l'
                           end
         end) items
  | _ => None
  end.

(** [json.dumps(v)]: the JSON text, represented by the document [v]
    itself, or the [TypeError] of the encoder. *)
Definition json_dumps (v : pyval) : exn + pyval :=
  match json_reject v with
  | Some t => inl (PyExc "TypeError" ("Object of type " +:+ t +:+ " is not JSON serializable"))
  | None => inr v
  end.

(** [int(x)] for the two things [headers.get] can return. *)
Module PyInt.

(** Digits with single underscores between them; the value and the number
    of digits. [prev] tells whether the last character read was a digit. *)
Fixpoint digits (s : string) (prev : bool) (acc : Z) (count : nat) : option (Z * nat) :=
  match s with
  | EmptyString => if prev then Some (acc, count) else None
  | String c s' =>
      if Str.is_digit c then digits s' true (10 * acc + Str.digit_value c) (S count)
      else if Ascii.eqb c "_"%char && prev then digits s' false acc count
      else None
  end.

Definition max_str_digits : nat := 4300.

Definition invalid_literal (s : string) : exn :=
  PyExc "ValueError" ("invalid literal for int() with base 10: " +:+ Str.repr s).

Definition too_many_digits (n : nat) : exn :=
  PyExc "ValueError"
    ("Exceeds the limit (4300 digits) for integer string conversion: value has "
     +:+ pretty n +:+ " digits; use sys.set_int_max_str_digits() to increase the limit").

Definition of_str (s : string) : exn + Z :=
  let body := Str.strip s in
  let '(neg, ds) :=
    match body with
    | String c r =>
        if Ascii.eqb c "-"%char then (true, r)
        else if Ascii.eqb c "+"%char then (false, r)
        else (false, body)
    | EmptyString => (false, body)
    end in
  match digits ds false 0 0 with
  | None => inl (invalid_literal s)
  | Some (v, n) =>
      if (max_str_digits <? n)%nat then inl (too_many_digits n)
      else inr (if neg then - v else v)
  end.

Definition of_header (h : option string) : exn + Z :=
  match h with
  | None =>
      inl (PyExc "TypeError"
             "int() argument must be a string, a bytes-like object or a real number, not 'NoneType'")
  | Some s => of_str s
  end.

(** [n / (1024*1024)] is a float; true division of integers raises when
    the correctly rounded quotient leaves the range of a double. *)
Definition megabytes_overflow (n : Z) : bool :=
  2 ^ 1044 - 2 ^ 990 <=? Z.abs n.

End PyInt.


(** ** posixpath *)

Definition os_path_dirname (p : string) : string :=
  let head := Str.upto_last_sep p in
  match head with
  | EmptyString => head
  | _ => if Str.all_sep head then head else Str.rstrip_sep head
  end.

Definition os_path_join (a b : string) : string :=
  match b with
  | String "/"%char _ => b
  | _ =>
      match a with
      | EmptyString => b
      | _ => if Str.ends_with_sep a then a +:+ b else a +:+ "/" +:+ b
      end
  end.

(** ** Observable events *)

(** What [parser.error] reports. *)
Inductive parse_error : Type :=
| Ambiguous (arg : string) (matches : list string)
| IgnoredExplicit (explicit : string)
| InvalidChoice (value : string)
| MissingRequired (names : list string)
| Unrecognized (extras : list string).

Inductive event : Type :=
| EPrint (line : string)                       (* print(line) *)
| EPrintSize (bytes : Z)                       (* the size line of verify_model_download *)
| EPrintJson (doc : pyval)                     (* print of a JSON text *)
| EHelp (prog : string)                        (* argparse help, on stdout *)
| EUsageError (prog : string) (err : parse_error) (* argparse usage and error, on stderr *)
| EMakedirs (path : string)                    (* os.makedirs(path, exist_ok=True) *)
| EHead (url : string) (timeout : Z)           (* urlopen of a HEAD request *)
| EGet (url dest : string)                     (* urlretrieve(url, dest, reporthook) *)
| EBarOpen                                     (* DownloadProgressBar entered *)
| EBarClose                                    (* DownloadProgressBar left *)
| EPip (package : string)                      (* python -m pip install package *)
| ELoadModel (size : string)                   (* whisper.load_model(size) *)
| ETranscribe (path : string).                 (* model.transcribe(path) *)

Definition is_network (e : event) : bool :=
  match e with
  | EHead _ _ | EGet _ _ => true
  | _ => false
  end.

(** ** The outside world *)

Record head_response : Type := {
  status : Z;
  content_length : option string     (* response.headers.get("Content-Length") *)
}.

Inductive head_outcome : Type :=
| HeadRaises (cls msg : string)      (* URLError, HTTPError, timeout, ... *)
| HeadResponds (r : head_response).

Inductive get_outcome : Type :=
| GetOk
| GetRaises (cls msg : string) (partial : bool). (* [partial]: a file was left at the destination *)

Inductive pip_outcome : Type :=
| PipRaises (cls msg : string)       (* CalledProcessError, OSError *)
| PipOk (provides : gset string).    (* exit status 0; modules importable afterwards *)

Record Env : Type := {
  home : option string;                       (* the user's home directory, if it can be determined *)
  http_head : string → head_outcome;
  http_get : string → get_outcome;
  pip_install : string → pip_outcome;
  whisper_load_model : string → option (string * string);  (* [Some (cls, msg)]: raises *)
  whisper_transcribe : string → (string * string) + pydict
}.

Record State : Type := {
  fs : gset string;           (* paths that exist *)
  modules : gset string;      (* modules [import] finds *)
  trace : list event          (* events so far, oldest first *)
}.

(** ** The monad of Python statements *)

Inductive res (A : Type) : Type :=
| Ok (a : A)
| Raise (e : exn).
Arguments Ok {A} a.
Arguments Raise {A} e.

Definition M (A : Type) : Type := State → res A * State.

#[global] Instance M_ret : MRet M := λ A a s, (Ok a, s).

#[global] Instance M_bind : MBind M := λ A B f m s,
  match m s with
  | (Ok a, s') => f a s'
  | (Raise e, s') => (Raise e, s')
  end.

#[global] Instance M_fmap : FMap M := λ A B f m s,
  match m s with
  | (Ok a, s') => (Ok (f a), s')
  | (Raise e, s') => (Raise e, s')
  end.

Definition raise {A} (e : exn) : M A := λ s, (Raise e, s).

Definition lift {A} (r : exn + A) : M A :=
  match r with
  | inl e => raise e
  | inr a => mret a
  end.

Definition emit (ev : event) : M unit := λ s,
  (Ok tt, {| fs := fs s; modules := modules s; trace := trace s ++ [ev] |}).

Definition add_path (p : string) : M unit := λ s,
  (Ok tt, {| fs := {[p]} ∪ fs s; modules := modules s; trace := trace s |}).

Definition add_modules (ms : gset string) : M unit := λ s,
  (Ok tt, {| fs := fs s; modules := ms ∪ modules s; trace := trace s |}).

(** [try: body  except <class> as e: handler e] *)
Definition try_except {A} (catches : exn → bool) (body : M A) (handler : exn → M A) : M A :=
  λ s, match body s with
       | (Raise e, s') => if catches e then handler e s' else (Raise e, s')
       | r => r
       end.

(** [try: body  finally: cleanup] *)
Definition try_finally {A} (body : M A) (cleanup : M unit) : M A :=
  λ s, match body s with
       | (Ok a, s') => (cleanup;; mret a) s'
       | (Raise e, s') => (cleanup;; raise e) s'
       end.

(** [with cm: body] for a context manager whose [__exit__] does not
    swallow exceptions. *)
Definition with_ {A} (enter exit_ : M unit) (body : M A) : M A :=
  enter;; try_finally body exit_.

Definition print (line : string) : M unit := emit (EPrint line).

Definition sys_exit {A} (code : Z) : M A := raise (SystemExit code).

Definition os_path_exists (p : string) : M bool := λ s,
  (Ok (bool_decide (p ∈ fs s)), s).

Definition os_makedirs (p : string) : M unit :=
  emit (EMakedirs p);; add_path p.

Definition import_ (name : string) : M unit := λ s,
  if bool_decide (name ∈ modules s) then (Ok tt, s)
  else (Raise (PyExc "ModuleNotFoundError" ("No module named " +:+ Str.repr name)), s).

(** ** argparse

    [parse_known_args] of the standard library (CPython 3.11), for parsers
    built from what the script uses: options that take no argument
    ([-h]/[--help], [store_true]), one positional with the default [nargs],
    and one sub-command action.  The functions keep the names of
    argparse.py. *)

Module Argparse.

Inductive opt_action : Type :=
| Help
| StoreTrue (dest : string).

Inductive positional_action : Type :=
| Store (dest : string)                               (* nargs=None, required *)
| SubParsers (dest : string) (choices : list string). (* nargs=PARSER, not required *)

Record parser : Type := {
  prog : string;
  option_string_actions : list (string * opt_action);
  positional : option positional_action;
  defaults : gmap string pyval
}.

(** (action, option_string, explicit_arg); the action is [None] for an
    option the parser does not know. *)
Record option_tuple : Type := {
  ot_action : option opt_action;
  ot_option_string : string;
  ot_explicit_arg : option string
}.

(** The letters of [arg_strings_pattern]. *)
Inductive arg_class : Type :=
| ClsA
| ClsDash
| ClsO (t : option_tuple).

Inductive presult : Type :=
| PDone (ns : gmap string pyval) (extras : list string)
| PHelp (prog : string)                     (* help printed, exit status 0 *)
| PError (prog : string) (err : parse_error). (* usage error, exit status 2 *)

Fixpoint lookup_action (s : string) (acts : list (string * opt_action)) : option opt_action :=
  match acts with
  | [] => None
  | (o, a) :: acts' => if String.eqb s o then Some a else lookup_action s acts'
  end.

(** [option_string[1] in prefix_chars] *)
Definition is_long (option_string : string) : bool :=
  match option_string with
  | String _ (String c _) => Ascii.eqb c "-"%char
  | _ => false
  end.

(** [\d+$] and [\d*\.\d+$]; [$] also matches before a final newline. *)
Fixpoint digits1_end (s : string) : bool :=
  match s with
  | EmptyString => false
  | String c s' =>
      Str.is_digit c &&
      match s' with
      | EmptyString => true
      | String n EmptyString => (nat_of_ascii n =? 10)%nat || digits1_end s'
      | _ => digits1_end s'
      end
  end.

Fixpoint decimal_end (s : string) : bool :=
  match s with
  | EmptyString => false
  | String c s' =>
      if Ascii.eqb c "."%char then digits1_end s'
      else Str.is_digit c && decimal_end s'
  end.

(** [re.compile(r'^-\d+$|^-\d*\.\d+$').match] *)
Definition _negative_number_matcher (s : string) : bool :=
  match s with
  | String c r => Ascii.eqb c "-"%char && (digits1_end r || decimal_end r)
  | EmptyString => false
  end.

Definition _get_option_tuples (p : parser) (option_string : string) : list option_tuple :=
  if is_long option_string then
    let '(option_prefix, explicit_arg) :=
      if Str.mem_char "="%char option_string
      then let '(a, b) := Str.split_first "="%char option_string in (a, Some b)
      else (option_string, None) in
    omap (λ '(o, a),
            if String.prefix option_prefix o
            then Some {| ot_action := Some a; ot_option_string := o;
                         ot_explicit_arg := explicit_arg |}
            else None)
         (option_string_actions p)
  else
    let option_prefix := option_string in
    let short_option_prefix := String.substring 0 2 option_string in
    let short_explicit_arg :=
      String.substring 2 (String.length option_string - 2) option_string in
    omap (λ '(o, a),
            if String.eqb o short_option_prefix
            then Some {| ot_action := Some a; ot_option_string := o;
                         ot_explicit_arg := Some short_explicit_arg |}
            else if String.prefix option_prefix o
            then Some {| ot_action := Some a; ot_option_string := o;
                         ot_explicit_arg := None |}
            else None)
         (option_string_actions p).

(** The option before an [=] and the explicit argument after it, when the
    parser knows that option. *)
Definition split_explicit (p : parser) (arg_string : string) : option option_tuple :=
  if Str.mem_char "="%char arg_string then
    let '(option_string, explicit_arg) := Str.split_first "="%char arg_string in
    match lookup_action option_string (option_string_actions p) with
    | Some a =>
        Some {| ot_action := Some a; ot_option_string := option_string;
                ot_explicit_arg := Some explicit_arg |}
    | None => None
    end
  else None.

(** An argument that starts with [-] and matches no option: a negative
    number or a string with a space is a positional, anything else an
    unknown option.  No option of these parsers looks like a negative
    number. *)
Definition unmatched (arg_string : string) : option option_tuple :=
  if _negative_number_matcher arg_string then None
  else if Str.mem_char " "%char arg_string then None
  else Some {| ot_action := None; ot_option_string := arg_string;
               ot_explicit_arg := None |}.

(** [inr None]: a positional; [inr (Some t)]: an option; [inl]: the parser
    reports an ambiguous abbreviation. *)
Definition _parse_optional (p : parser) (arg_string : string)
  : parse_error + option option_tuple :=
  match arg_string with
  | EmptyString => inr None
  | String c tail =>
      if negb (Ascii.eqb c "-"%char) then inr None
      else
        match lookup_action arg_string (option_string_actions p) with
        | Some a =>
            inr (Some {| ot_action := Some a; ot_option_string := arg_string;
                         ot_explicit_arg := None |})
        | None =>
            match tail with
            | EmptyString => inr None
            | _ =>
                match split_explicit p arg_string with
                | Some t => inr (Some t)
                | None =>
                    let option_tuples := _get_option_tuples p arg_string in
                    match option_tuples with
                    | _ :: _ :: _ =>
                        inl (Ambiguous arg_string (ot_option_string <$> option_tuples))
                    | [option_tuple] => inr (Some option_tuple)
                    | [] => inr (unmatched arg_string)
                    end
                end
            end
        end
  end.

(** The first loop of [_parse_known_args]: each argument with its letter. *)
Fixpoint classify (p : parser) (arg_strings : list string)
  : parse_error + list (string * arg_class) :=
  match arg_strings with
  | [] => inr []
  | arg_string :: rest =>
      if String.eqb arg_string "--"
      then inr ((arg_string, ClsDash) :: ((λ a, (a, ClsA)) <$> rest))
      else
        match _parse_optional p arg_string with
        | inl e => inl e
        | inr cls =>
            match classify p rest with
            | inl e => inl e
            | inr toks =>
                inr ((arg_string, match cls with
                                  | None => ClsA
                                  | Some t => ClsO t
                                  end) :: toks)
            end
        end
  end.

(** The strings before the next option, that option, and what follows it;
    [None] once the last option has been passed. *)
Fixpoint next_option (toks : list (string * arg_class))
  : option (list string * (string * option_tuple) * list (string * arg_class)) :=
  match toks with
  | [] => None
  | (s, ClsO t) :: rest => Some ([], (s, t), rest)
  | (s, _) :: rest =>
      match next_option rest with
      | Some (pre, o, post) => Some (s :: pre, o, post)
      | None => None
      end
  end.

Inductive optional_result : Type :=
| OptExtra                              (* unknown option: goes to extras *)
| OptActions (acts : list opt_action)   (* the actions to take, in order *)
| OptError (err : parse_error).

(** The [while True] loop of [consume_optional] while an explicit
    argument is left; every option here takes no argument. *)
Fixpoint consume_explicit (p : parser) (action : opt_action) (option_string : string)
    (explicit_arg : string) (action_tuples : list opt_action) : optional_result :=
  match explicit_arg with
  | String c new_explicit_arg =>
      if negb (is_long option_string) then
        let option_string' := String "-"%char (String c EmptyString) in
        match lookup_action option_string' (option_string_actions p) with
        | Some action' =>
            match new_explicit_arg with
            | EmptyString => OptActions (action_tuples ++ [action; action'])
            | _ => consume_explicit p action' option_string' new_explicit_arg
                     (action_tuples ++ [action])
            end
        | None => OptError (IgnoredExplicit explicit_arg)
        end
      else OptError (IgnoredExplicit explicit_arg)
  | EmptyString => OptError (IgnoredExplicit explicit_arg)
  end.

Definition consume_optional (p : parser) (t : option_tuple) : optional_result :=
  match ot_action t with
  | None => OptExtra
  | Some action =>
      match ot_explicit_arg t with
      | Some explicit_arg => consume_explicit p action (ot_option_string t) explicit_arg []
      | None => OptActions [action]
      end
  end.

(** [take_action] for the queued option actions: the help action prints
    and exits, [store_true] sets its destination. *)
Fixpoint take_actions (p : parser) (acts : list opt_action) (ns : gmap string pyval)
  : presult + gmap string pyval :=
  match acts with
  | [] => inr ns
  | Help :: _ => inl (PHelp (prog p))
  | StoreTrue dest :: acts' => take_actions p acts' (<[dest := PBool true]> ns)
  end.

Fixpoint remove_first (x : string) (l : list string) : list string :=
  match l with
  | [] => []
  | y :: l' => if String.eqb x y then l' else y :: remove_first x l'
  end.

Fixpoint count_dashes (toks : list (string * arg_class)) : nat :=
  match toks with
  | (_, ClsDash) :: rest => S (count_dashes rest)
  | _ => O
  end.

Inductive positional_result : Type :=
| PosNone                                   (* the pattern does not match here *)
| PosTaken (n : nat) (ns : gmap string pyval) (unrecognized : list string)
| PosStop (r : presult).

Section Parse.

(** [parse_known_args] of the sub-parser registered under a name. *)
Variable subparse : string → list string → presult.

(** [consume_positionals]: match the pattern of the remaining positional
    at the head of [toks] and take its action. *)
Definition consume_positionals (p : parser) (pos : option positional_action)
    (toks : list (string * arg_class)) (ns : gmap string pyval) : positional_result :=
  match pos with
  | None => PosNone
  | Some (Store dest) =>
      (* nargs pattern: any '--', one A, any '--' *)
      let d0 := count_dashes toks in
      match drop d0 toks with
      | (_, ClsA) :: after =>
          let n := (d0 + 1 + count_dashes after)%nat in
          let arg_strings := remove_first "--" (fst <$> take n toks) in
          let value :=
            match arg_strings with
            | [arg_string] => PStr arg_string
            | _ => PList (PStr <$> arg_strings)
            end in
          PosTaken n (<[dest := value]> ns) []
      | _ => PosNone
      end
  | Some (SubParsers dest choices) =>
      (* nargs pattern: any '--', one A, then everything *)
      let d0 := count_dashes toks in
      match drop d0 toks with
      | (_, ClsA) :: _ =>
          match fst <$> toks with
          | [] => PosNone
          | parser_name :: arg_strings =>
              if bool_decide (parser_name ∈ choices) then
                match subparse parser_name arg_strings with
                | PDone subnamespace unrecognized =>
                    PosTaken (List.length toks)
                      (subnamespace ∪ <[dest := PStr parser_name]> ns) unrecognized
                | r => PosStop r
                end
              else PosStop (PError (prog p) (InvalidChoice parser_name))
          end
      | _ => PosNone
      end
  end.

(** What follows the [while] loop: positionals after the last option,
    extras, required arguments. *)
Definition finish (p : parser) (toks : list (string * arg_class))
    (pos : option positional_action) (ns : gmap string pyval)
    (extras unrecognized : list string) : presult :=
  let check pos' ns' extras' unrecognized' :=
    match pos' with
    | Some (Store dest) => PError (prog p) (MissingRequired [dest])
    | _ => PDone ns' (extras' ++ unrecognized')
    end in
  match consume_positionals p pos toks ns with
  | PosStop r => r
  | PosNone => check pos ns (extras ++ (fst <$> toks)) unrecognized
  | PosTaken n ns' unrecognized' =>
      check None ns' (extras ++ (fst <$> drop n toks)) (unrecognized ++ unrecognized')
  end.

(** The [while start_index <= max_option_string_index] loop.  [toks] is
    what lies at and after the current position of the scan; [skip] many
    of them have been consumed already. *)
Fixpoint consume (p : parser) (toks : list (string * arg_class)) (skip : nat)
    (pos : option positional_action) (ns : gmap string pyval)
    (extras unrecognized : list string) : presult :=
  match toks with
  | [] => finish p [] pos ns extras unrecognized
  | tok :: rest =>
      match skip with
      | S skip' => consume p rest skip' pos ns extras unrecognized
      | O =>
          match next_option toks with
          | None => finish p toks pos ns extras unrecognized
          | Some (pre, (s, t), _) =>
              let optional pos ns extras unrecognized :=
                match consume_optional p t with
                | OptExtra =>
                    consume p rest (List.length pre) pos ns (extras ++ [s]) unrecognized
                | OptError e => PError (prog p) e
                | OptActions acts =>
                    match take_actions p acts ns with
                    | inl r => r
                    | inr ns' => consume p rest (List.length pre) pos ns' extras unrecognized
                    end
                end in
              match pre with
              | [] => optional pos ns extras unrecognized
              | _ =>
                  match consume_positionals p pos toks ns with
                  | PosStop r => r
                  | PosTaken (S n) ns' unrecognized' =>
                      consume p rest n None ns' extras (unrecognized ++ unrecognized')
                  | PosTaken O ns' unrecognized' =>
                      optional None ns' (extras ++ pre) (unrecognized ++ unrecognized')
                  | PosNone => optional pos ns (extras ++ pre) unrecognized
                  end
              end
          end
      end
  end.

Definition parse_known_args (p : parser) (args : list string) : presult :=
  match classify p args with
  | inl e => PError (prog p) e
  | inr toks => consume p toks 0 (positional p) (defaults p) [] []
  end.

End Parse.

(** [parse_args]: extras left over are an error of the top-level parser. *)
Definition parse_args (subparse : string → list string → presult) (p : parser)
    (args : list string) : presult :=
  match parse_known_args subparse p args with
  | PDone ns [] => PDone ns []
  | PDone ns argv => PError (prog p) (Unrecognized argv)
  | r => r
  end.

End Argparse.

(** ** The script *)

Section Script.

Variable env : Env.

(** [os.path.expanduser("~/.fethr")] *)
Definition expanduser_fethr : string :=
  match home env with
  | Some h => Str.rstrip_sep h +:+ "/.fethr"
  | None => "~/.fethr"
  end.

(** Configuration, lines 56-62. *)
Definition MODEL_SIZE : string := "tiny".
Definition MODEL_LANG : string := "en".
Definition APP_DATA_DIR : string := expanduser_fethr.
Definition MODELS_DIR : string := os_path_join APP_DATA_DIR "models".
Definition WHISPER_MODEL_URL : string :=
  "https://huggingface.co/ggerganov/whisper.cpp/resolve/main/ggml-"
  +:+ MODEL_SIZE +:+ "." +:+ MODEL_LANG +:+ ".bin".
Definition WHISPER_MODEL_PATH : string :=
  os_path_join MODELS_DIR ("ggml-" +:+ MODEL_SIZE +:+ "." +:+ MODEL_LANG +:+ ".bin").

(** [urllib.request.urlretrieve(url, dest, reporthook=...)] *)
Definition urlretrieve (url dest : string) : M unit :=
  emit (EGet url dest);;
  match http_get env url with
  | GetOk => add_path dest
  | GetRaises cls msg partial =>
      (if partial then add_path dest else mret tt);;
      raise (PyExc cls msg)
  end.

(** [urllib.request.urlopen(Request(url, method="HEAD"), timeout=t)] *)
Definition urlopen_head (url : string) (timeout : Z) : M head_response :=
  emit (EHead url timeout);;
  match http_head env url with
  | HeadRaises cls msg => raise (PyExc cls msg)
  | HeadResponds r => mret r
  end.

(** [subprocess.check_call([sys.executable, "-m", "pip", "install", package])] *)
Definition pip_check_call (package : string) : M unit :=
  emit (EPip package);;
  match pip_install env package with
  | PipRaises cls msg => raise (PyExc cls msg)
  | PipOk provides => add_modules provides
  end.

Definition load_model (size : string) : M unit :=
  emit (ELoadModel size);;
  match whisper_load_model env size with
  | Some (cls, msg) => raise (PyExc cls msg)
  | None => mret tt
  end.

Definition model_transcribe (audio_path : string) : M pydict :=
  emit (ETranscribe audio_path);;
  match whisper_transcribe env audio_path with
  | inl (cls, msg) => raise (PyExc cls msg)
  | inr result => mret result
  end.

(** [result[k]] *)
Definition dict_item (k : string) (d : pydict) : M pyval :=
  match dict_lookup k d with
  | Some v => mret v
  | None => raise (PyExc "KeyError" (Str.repr k))
  end.

(** Lines 21-53 and 65: what importing the module does.  When tqdm cannot
    be imported or installed the script defines its own progress bar; every
    exception of that block is handled. *)
Definition module_level : M unit :=
  try_except is_ImportError
    (import_ "tqdm")
    (λ _, print "Installing tqdm package...";;
          try_except is_Exception
            (pip_check_call "tqdm";; import_ "tqdm")
            (λ e, print ("Error installing tqdm package: " +:+ str_exn e)));;
  os_makedirs MODELS_DIR.

(** Lines 73-104. *)
Definition download_model : M bool :=
  found ← os_path_exists WHISPER_MODEL_PATH;
  if found : bool then
    print ("Model already exists at: " +:+ WHISPER_MODEL_PATH);;
    mret true
  else
    print ("Downloading Whisper model (" +:+ MODEL_SIZE +:+ "." +:+ MODEL_LANG
           +:+ ") from Hugging Face...");;
    try_except is_Exception
      (os_makedirs (os_path_dirname WHISPER_MODEL_PATH);;
       let model_url :=
         "https://huggingface.co/ggerganov/whisper.cpp/resolve/main/ggml-"
         +:+ MODEL_SIZE +:+ "." +:+ MODEL_LANG +:+ ".bin" in
       print ("Downloading from: " +:+ model_url);;
       print ("Saving to: " +:+ WHISPER_MODEL_PATH);;
       with_ (emit EBarOpen) (emit EBarClose)
         (urlretrieve model_url WHISPER_MODEL_PATH);;
       print ("Model downloaded to: " +:+ WHISPER_MODEL_PATH);;
       mret true)
      (λ e,
        print ("Error downloading model: " +:+ str_exn e);;
        (if Str.contains "HTTP Error 404" (str_exn e) then
           (* [model_url], bound at line 85 before anything here can raise *)
           print ("Model file not found at URL: "
                  +:+ "https://huggingface.co/ggerganov/whisper.cpp/resolve/main/ggml-"
                  +:+ MODEL_SIZE +:+ "." +:+ MODEL_LANG +:+ ".bin");;
           print "The model may have been moved or renamed. Please check the repository for the latest model URLs."
         else mret tt);;
        mret false).

(** Lines 106-124. *)
Definition verify_model_download : M bool :=
  try_except is_Exception
    (let model_url :=
       "https://huggingface.co/ggerganov/whisper.cpp/resolve/main/ggml-"
       +:+ MODEL_SIZE +:+ "." +:+ MODEL_LANG +:+ ".bin" in
     response ← urlopen_head model_url 10;
     if status response =? 200 then
       let content_length := content_length response in
       size ← lift (PyInt.of_header content_length);
       (if PyInt.megabytes_overflow size
        then raise (PyExc "OverflowError" "integer division result too large for a float")
        else mret tt);;
       emit (EPrintSize size);;
       mret true
     else
       print ("Model URL returned status code: " +:+ pretty (status response));;
       mret false)
    (λ e, print ("Error verifying model URL: " +:+ str_exn e);; mret false).

(** Lines 126-140. *)
Definition install_whisper : M bool :=
  try_except is_ImportError
    (import_ "whisper";;
     print "Whisper package is already installed";;
     mret true)
    (λ _,
      print "Installing whisper package...";;
      try_except is_Exception
        (pip_check_call "openai-whisper";;
         print "Whisper package installed successfully";;
         mret true)
        (λ e, print ("Error installing whisper package: " +:+ str_exn e);; mret false)).

Definition error_document (message : string) : pyval :=
  PDict [("error", PStr message)].

(** Lines 142-175.  The result is the document whose JSON text the
    function returns. *)
Definition transcribe_audio (audio_path : string) : M pyval :=
  found ← os_path_exists audio_path;
  if negb found then
    lift (json_dumps (error_document ("Audio file not found: " +:+ audio_path)))
  else
    have_model ← os_path_exists WHISPER_MODEL_PATH;
    downloaded ← (if negb have_model then download_model else mret true);
    if negb downloaded then
      lift (json_dumps (error_document "Failed to download Whisper model"))
    else
      installed ← install_whisper;
      if negb installed then
        lift (json_dumps (error_document "Failed to install Whisper package"))
      else
        import_ "whisper";;
        try_except is_Exception
          (print ("Loading Whisper model: " +:+ MODEL_SIZE);;
           load_model MODEL_SIZE;;
           print ("Transcribing audio: " +:+ audio_path);;
           result ← model_transcribe audio_path;
           text ← dict_item "text" result;
           lift (json_dumps (PDict [
             ("text", text);
             ("language", dict_get "language" (PStr "en") result);
             ("segments", dict_get "segments" (PList []) result)
           ])))
          (λ e, lift (json_dumps (error_document ("Transcription error: " +:+ str_exn e)))).

(** The parsers built in [main], lines 178-188. *)
Definition download_parser : Argparse.parser := {|
  Argparse.prog := "simple_whisper_solution.py download";
  Argparse.option_string_actions :=
    [("-h", Argparse.Help); ("--help", Argparse.Help);
     ("--verbose", Argparse.StoreTrue "verbose");
     ("--verify", Argparse.StoreTrue "verify")];
  Argparse.positional := None;
  Argparse.defaults := {["verbose" := PBool false; "verify" := PBool false]}
|}.

Definition transcribe_parser : Argparse.parser := {|
  Argparse.prog := "simple_whisper_solution.py transcribe";
  Argparse.option_string_actions := [("-h", Argparse.Help); ("--help", Argparse.Help)];
  Argparse.positional := Some (Argparse.Store "audio_path");
  Argparse.defaults := {["audio_path" := PNone]}
|}.

Definition parser : Argparse.parser := {|
  Argparse.prog := "simple_whisper_solution.py";
  Argparse.option_string_actions := [("-h", Argparse.Help); ("--help", Argparse.Help)];
  Argparse.positional := Some (Argparse.SubParsers "command" ["download"; "transcribe"]);
  Argparse.defaults := {["command" := PNone]}
|}.

Definition no_subparsers : string → list string → Argparse.presult :=
  λ _ _, Argparse.PDone ∅ [].

Definition subparsers (name : string) (args : list string) : Argparse.presult :=
  if String.eqb name "download"
  then Argparse.parse_known_args no_subparsers download_parser args
  else if String.eqb name "transcribe"
  then Argparse.parse_known_args no_subparsers transcribe_parser args
  else Argparse.PError (Argparse.prog parser) (InvalidChoice name).

(** [parser.parse_args()] on [sys.argv[1:]]: the namespace, or the exit
    argparse takes after printing help or a usage error. *)
Definition parse_args (argv : list string) : M (gmap string pyval) :=
  match Argparse.parse_args subparsers parser argv with
  | Argparse.PDone ns _ => mret ns
  | Argparse.PHelp prog => emit (EHelp prog);; sys_exit 0
  | Argparse.PError prog err => emit (EUsageError prog err);; sys_exit 2
  end.

Definition truthy (v : pyval) : bool :=
  match v with
  | PNone | PBool false | PInt 0 | PStr EmptyString | PList [] | PDict [] => false
  | _ => true
  end.

(** [v == s] for a string literal [s] *)
Definition eq_str (v : pyval) (s : string) : bool :=
  match v with
  | PStr t => String.eqb t s
  | _ => false
  end.

(** [args.name] *)
Definition getattr (args : gmap string pyval) (name : string) : M pyval :=
  match args !! name with
  | Some v => mret v
  | None => raise (PyExc "AttributeError"
                     ("'Namespace' object has no attribute " +:+ Str.repr name))
  end.

Definition hasattr (args : gmap string pyval) (name : string) : bool :=
  bool_decide (is_Some (args !! name)).

(** Lines 192-206: what [main] does with the parsed arguments. *)
Definition dispatch (args : gmap string pyval) : M unit :=
  command ← getattr args "command";
  if eq_str command "download" then
    verify ← (if hasattr args "verify" then truthy <$> getattr args "verify"
              else mret false);
    (if verify : bool then
       reachable ← verify_model_download;
       if negb reachable then
         print "Model URL verification failed. Aborting download.";;
         sys_exit 1
       else mret tt
     else mret tt);;
    success ← download_model;
    sys_exit (if success : bool then 0 else 1)
  else if eq_str command "transcribe" then
    audio_path ← getattr args "audio_path";
    match audio_path with
    | PStr audio_path =>
        result ← transcribe_audio audio_path;
        emit (EPrintJson result);;
        sys_exit 0
    | _ =>
        (* [os.path.exists] of something that is not a path *)
        raise (PyExc "TypeError"
                 "stat: path should be string, bytes, os.PathLike or integer")
    end
  else
    emit (EHelp (Argparse.prog parser));;
    sys_exit 1.

(** Lines 177-206. *)
Definition main (argv : list string) : M unit :=
  args ← parse_args argv;
  dispatch args.

(** Running the file: the module body, then [main()]. *)
Definition script (argv : list string) : M unit :=
  module_level;; main argv.

End Script.

(** The exit status of the interpreter: the code of [sys.exit], 1 after
    an uncaught exception (with a traceback), 0 when the script ends. *)
Definition exit_status {A} (r : res A) : Z :=
  match r with
  | Ok _ => 0
  | Raise (SystemExit code) => code
  | Raise (PyExc _ _) => 1
  end.

(** ** The fallback progress bar, lines 32-53 and 67-71

    The class [tqdm] that the script defines for itself when tqdm can be
    neither imported nor installed, and [DownloadProgressBar] on top of
    it.  A method takes the object and returns what it leaves: its result,
    the object after the call (also when it raises), and the pieces of
    text it wrote to standard output.

    The percentage [int(self.n / self.total * 100)] is a computation on
    floats.  It is a parameter of the section: a function of the two
    counters that yields an integer or raises (the [OverflowError] of a
    quotient beyond the range of a float).  What is proved below holds
    for every such function. *)

Module Fallback.

Record bar : Type := {
  total : Z;
  n : Z;
  unit : string;
  desc : string;
  ncols : Z
}.

Definition nl : string := String (ascii_of_nat 10) "".
Definition cr : string := String (ascii_of_nat 13) "".

Definition outcome (A : Type) : Type := res A * bar * list string.

(** [__init__(self, **kwargs)] for the keywords it reads; any other
    keyword is ignored. *)
Definition __init__ (total : option Z) (unit desc : option string) (ncols : option Z)
  : bar * list string :=
  let self := {| total := default 100 total;
                 n := 0;
                 unit := default "" unit;
                 desc := default "" desc;
                 ncols := default 80 ncols |} in
  (self, [Fallback.desc self +:+ " started..." +:+ nl]).

Section Methods.

Variable percent : Z → Z → exn + Z.

Definition update (b : Z) (self : bar) : outcome () :=
  let self := {| total := total self; n := n self + b; unit := unit self;
                 desc := desc self; ncols := ncols self |} in
  match (if total self =? 0 then inr 0 else percent (n self) (total self)) with
  | inl e => (Raise e, self, [])
  | inr progress =>
      (Ok tt, self, [cr +:+ desc self +:+ ": " +:+ pretty progress +:+ "% completed"])
  end.

Definition close (self : bar) : outcome () :=
  (Ok tt, self, [nl +:+ "Download completed!" +:+ nl]).

Definition __enter__ (self : bar) : outcome bar := (Ok self, self, []).

Definition __exit__ (self : bar) : outcome () := close self.

(** [DownloadProgressBar.update_to(b, bsize, tsize)] *)
Definition update_to (b bsize : Z) (tsize : option Z) (self : bar) : outcome () :=
  let self :=
    match tsize with
    | Some tsize => {| total := tsize; n := n self; unit := unit self;
                       desc := desc self; ncols := ncols self |}
    | None => self
    end in
  update (b * bsize - n self) self.

(** The calls a transfer makes to its [reporthook], one after the other,
    until one of them raises. *)
Fixpoint report (calls : list (Z * Z * option Z)) (self : bar) : outcome () :=
  match calls with
  | [] => (Ok tt, self, [])
  | (b, bsize, tsize) :: calls' =>
      match update_to b bsize tsize self with
      | (Ok _, self', out) =>
          let '(r, self'', out') := report calls' self' in (r, self'', out ++ out')
      | failed => failed
      end
  end.

(** [with DownloadProgressBar(unit='B', unit_scale=True, miniters=1,
    desc="Downloading") as t: body], line 90. *)
Definition with_bar {A} (body : bar → outcome A) : outcome A :=
  let '(self, started) := __init__ None (Some "B") (Some "Downloading") None in
  match __enter__ self with
  | (Ok t, self, entered) =>
      let '(r, self, out) := body t in
      let '(_, self, closed) := __exit__ self in
      (r, self, started ++ entered ++ out ++ closed)
  | (Raise e, self, entered) => (Raise e, self, started ++ entered)
  end.

End Methods.

End Fallback.

(** * Properties *)

(** ** Reasoning about [M] *)

Ltac unfold_M :=
  unfold mbind, M_bind, mret, M_ret, fmap, M_fmap, emit, print, raise, lift,
    add_path, add_modules, try_except, try_finally, with_, sys_exit,
    os_path_exists, os_makedirs, import_ in *.

(** Run the statements as far as they compute. *)
Ltac run_M := repeat (progress (unfold_M; simpl)).

(** Flatten the traces on both sides of an equation. *)
Ltac norm_trace := repeat rewrite <- app_assoc; simpl.

(** The state after appending events to the trace. *)
Definition logged (s : State) (evs : list event) : State :=
  {| fs := fs s; modules := modules s; trace := trace s ++ evs |}.

(** The value of [WHISPER_MODEL_URL], and of the local [model_url] that
    [download_model] and [verify_model_download] build from the same
    template. *)
Definition model_url : string :=
  "https://huggingface.co/ggerganov/whisper.cpp/resolve/main/ggml-tiny.en.bin".

(** ** The model fetcher *)

Section Fetcher.

Variable env : Env.

Lemma download_model_cached s :
  WHISPER_MODEL_PATH env ∈ fs s →
  download_model env s =
    (Ok true, logged s [EPrint ("Model already exists at: " +:+ WHISPER_MODEL_PATH env)]).
Proof.
  intros Hin. unfold download_model. unfold_M.
  rewrite bool_decide_eq_true_2 by done. reflexivity.
Qed.

(** What a download prints and does up to and including the transfer. *)
Definition download_prologue : list event :=
  [EPrint "Downloading Whisper model (tiny.en) from Hugging Face...";
   EMakedirs (os_path_dirname (WHISPER_MODEL_PATH env));
   EPrint ("Downloading from: " +:+ model_url);
   EPrint ("Saving to: " +:+ WHISPER_MODEL_PATH env);
   EBarOpen;
   EGet model_url (WHISPER_MODEL_PATH env);
   EBarClose].

(** The annotation of a 404. *)
Definition moved_or_renamed : list event :=
  [EPrint ("Model file not found at URL: " +:+ model_url);
   EPrint "The model may have been moved or renamed. Please check the repository for the latest model URLs."].

Definition failure_report (msg : string) : list event :=
  EPrint ("Error downloading model: " +:+ msg)
  :: (if Str.contains "HTTP Error 404" msg then moved_or_renamed else []).

Lemma download_model_fresh s :
  WHISPER_MODEL_PATH env ∉ fs s →
  download_model env s =
    match http_get env model_url with
    | GetOk =>
        (Ok true,
         {| fs := {[WHISPER_MODEL_PATH env]}
                  ∪ ({[os_path_dirname (WHISPER_MODEL_PATH env)]} ∪ fs s);
            modules := modules s;
            trace := trace s ++ download_prologue
                     ++ [EPrint ("Model downloaded to: " +:+ WHISPER_MODEL_PATH env)] |})
    | GetRaises cls msg partial =>
        (Ok false,
         {| fs := (if partial then {[WHISPER_MODEL_PATH env]} else ∅)
                  ∪ ({[os_path_dirname (WHISPER_MODEL_PATH env)]} ∪ fs s);
            modules := modules s;
            trace := trace s ++ download_prologue ++ failure_report msg |})
    end.
Proof.
  intros Hnotin. unfold download_model, urlretrieve. run_M.
  rewrite bool_decide_eq_false_2 by done. run_M.
  change ("https://huggingface.co/ggerganov/whisper.cpp/resolve/main/ggml-"
          +:+ MODEL_SIZE +:+ "." +:+ MODEL_LANG +:+ ".bin") with model_url.
  unfold failure_report, moved_or_renamed.
  destruct (http_get env model_url) as [|cls msg partial]; run_M.
  - norm_trace. reflexivity.
  - destruct partial; run_M;
      destruct (Str.contains "HTTP Error 404" msg); run_M; norm_trace;
      rewrite ?(left_id_L ∅ (∪)); reflexivity.
Qed.

(** [download_model] handles every exception of its body. *)
Lemma download_model_returns s :
  ∃ ok s', download_model env s = (Ok ok, s').
Proof.
  destruct (decide (WHISPER_MODEL_PATH env ∈ fs s)) as [Hin|Hnotin].
  - rewrite download_model_cached by done. eauto.
  - rewrite download_model_fresh by done.
    destruct (http_get env model_url); eauto.
Qed.

End Fetcher.

(** ** The reachability check *)

Lemma of_str_raises_Exception h e : PyInt.of_str h = inl e → is_Exception e = true.
Proof.
  unfold PyInt.of_str.
  destruct (match Str.strip h with
            | String c r =>
                if Ascii.eqb c "-" then (true, r)
                else if Ascii.eqb c "+" then (false, r)
                else (false, Str.strip h)
            | EmptyString => (false, Str.strip h)
            end) as [neg ds].
  destruct (PyInt.digits ds false 0 0) as [[v n]|].
  - destruct (PyInt.max_str_digits <? n)%nat; intros [= <-]; reflexivity.
  - intros [= <-]; reflexivity.
Qed.

Lemma of_header_raises_Exception h e :
  PyInt.of_header h = inl e → is_Exception e = true.
Proof.
  destruct h as [h|]; simpl.
  - apply of_str_raises_Exception.
  - intros [= <-]; reflexivity.
Qed.

(** What the check answers and the line it prints, from the outcome of the
    HEAD request alone. *)
Definition verify_verdict (o : head_outcome) : bool * event :=
  match o with
  | HeadRaises cls msg => (false, EPrint ("Error verifying model URL: " +:+ msg))
  | HeadResponds r =>
      if status r =? 200 then
        match PyInt.of_header (content_length r) with
        | inl e => (false, EPrint ("Error verifying model URL: " +:+ str_exn e))
        | inr size =>
            if PyInt.megabytes_overflow size
            then (false, EPrint ("Error verifying model URL: "
                                 +:+ "integer division result too large for a float"))
            else (true, EPrintSize size)
        end
      else (false, EPrint ("Model URL returned status code: " +:+ pretty (status r)))
  end.

(** The line of the verdict is a print. *)
Lemma verify_verdict_prints o : is_network (verify_verdict o).2 = false.
Proof.
  unfold verify_verdict. destruct o as [cls msg|r]; [done|].
  destruct (status r =? 200); [|done].
  destruct (PyInt.of_header (content_length r)) as [e|size]; [done|].
  by destruct (PyInt.megabytes_overflow size).
Qed.

Section Verify.

Variable env : Env.

Lemma verify_model_download_eq s :
  verify_model_download env s =
    let v := verify_verdict (http_head env model_url) in
    (Ok v.1, logged s [EHead model_url 10; v.2]).
Proof.
  unfold verify_model_download, urlopen_head, verify_verdict, logged. run_M.
  change ("https://huggingface.co/ggerganov/whisper.cpp/resolve/main/ggml-"
          +:+ MODEL_SIZE +:+ "." +:+ MODEL_LANG +:+ ".bin") with model_url.
  destruct (http_head env model_url) as [cls msg|r]; run_M.
  - norm_trace. reflexivity.
  - destruct (status r =? 200); run_M.
    + destruct (PyInt.of_header (content_length r)) as [e|size] eqn:Hint; run_M.
      * rewrite (of_header_raises_Exception _ _ Hint). norm_trace. reflexivity.
      * destruct (PyInt.megabytes_overflow size); run_M; norm_trace; reflexivity.
    + norm_trace. reflexivity.
Qed.

End Verify.

(** ** The dependency installer *)

Section Installer.

Variable env : Env.

Lemma install_whisper_eq s :
  install_whisper env s =
    if bool_decide ("whisper" ∈ modules s) then
      (Ok true, logged s [EPrint "Whisper package is already installed"])
    else
      match pip_install env "openai-whisper" with
      | PipRaises cls msg =>
          (Ok false,
           logged s [EPrint "Installing whisper package...";
                     EPip "openai-whisper";
                     EPrint ("Error installing whisper package: " +:+ msg)])
      | PipOk provides =>
          (Ok true,
           {| fs := fs s;
              modules := provides ∪ modules s;
              trace := trace s ++ [EPrint "Installing whisper package...";
                                   EPip "openai-whisper";
                                   EPrint "Whisper package installed successfully"] |})
      end.
Proof.
  unfold install_whisper, pip_check_call, logged. run_M.
  destruct (bool_decide ("whisper" ∈ modules s)); run_M; [reflexivity|].
  destruct (pip_install env "openai-whisper") as [cls msg|provides]; run_M;
    norm_trace; reflexivity.
Qed.

Lemma install_whisper_returns s :
  ∃ ok s', install_whisper env s = (Ok ok, s').
Proof.
  rewrite install_whisper_eq.
  destruct (bool_decide _); [eauto|].
  destruct (pip_install env "openai-whisper"); eauto.
Qed.

End Installer.

(** ** The transcription invoker *)

Section Invoker.

Variable env : Env.

Definition not_found_document (audio_path : string) : pyval :=
  error_document ("Audio file not found: " +:+ audio_path).

Lemma transcribe_audio_missing audio_path s :
  audio_path ∉ fs s →
  transcribe_audio env audio_path s = (Ok (not_found_document audio_path), s).
Proof.
  intros Hnotin. unfold transcribe_audio. run_M.
  rewrite bool_decide_eq_false_2 by done. reflexivity.
Qed.

(** Lines 159-175 on their own: the [try] block and its handler. *)
Definition transcribe_block (audio_path : string) : M pyval :=
  try_except is_Exception
    (print ("Loading Whisper model: " +:+ MODEL_SIZE);;
     load_model env MODEL_SIZE;;
     print ("Transcribing audio: " +:+ audio_path);;
     result ← model_transcribe env audio_path;
     text ← dict_item "text" result;
     lift (json_dumps (PDict [
       ("text", text);
       ("language", dict_get "language" (PStr "en") result);
       ("segments", dict_get "segments" (PList []) result)
     ])))
    (λ e, lift (json_dumps (error_document ("Transcription error: " +:+ str_exn e)))).

(** Everything the block can raise is handled: it always returns a
    document. *)
Lemma transcribe_block_returns audio_path s :
  ∃ doc s', transcribe_block audio_path s = (Ok doc, s').
Proof.
  unfold transcribe_block, load_model, model_transcribe, dict_item. run_M.
  destruct (whisper_load_model env MODEL_SIZE) as [[cls msg]|]; run_M; [eauto|].
  destruct (whisper_transcribe env audio_path) as [[cls msg]|result]; run_M; [eauto|].
  destruct (dict_lookup "text" result) as [text|]; run_M; [|eauto].
  unfold json_dumps.
  destruct (json_reject _); run_M; eauto.
Qed.

(** Lines 148-150: the model is there, or is fetched now. *)
Definition ensure_model : M bool :=
  have_model ← os_path_exists (WHISPER_MODEL_PATH env);
  if negb have_model then download_model env else mret true.

Lemma ensure_model_returns s : ∃ ok s', ensure_model s = (Ok ok, s').
Proof.
  unfold ensure_model. run_M.
  destruct (bool_decide _); run_M; [eauto|apply download_model_returns].
Qed.

Definition whisper_not_found : exn :=
  PyExc "ModuleNotFoundError" "No module named 'whisper'".

(** [transcribe_audio] stage by stage. *)
Lemma transcribe_audio_stages audio_path s :
  transcribe_audio env audio_path s =
    if bool_decide (audio_path ∈ fs s) then
      match ensure_model s with
      | (Ok true, s1) =>
          match install_whisper env s1 with
          | (Ok true, s2) =>
              if bool_decide ("whisper" ∈ modules s2)
              then transcribe_block audio_path s2
              else (Raise whisper_not_found, s2)
          | (Ok false, s2) =>
              (Ok (error_document "Failed to install Whisper package"), s2)
          | (Raise e, s2) => (Raise e, s2)
          end
      | (Ok false, s1) =>
          (Ok (error_document "Failed to download Whisper model"), s1)
      | (Raise e, s1) => (Raise e, s1)
      end
    else (Ok (not_found_document audio_path), s).
Proof.
  unfold transcribe_audio, ensure_model, transcribe_block. run_M.
  destruct (bool_decide (audio_path ∈ fs s)); run_M; [|reflexivity].
  destruct ((if negb (bool_decide (WHISPER_MODEL_PATH env ∈ fs s))
             then download_model env else λ s0, (Ok true, s0)) s)
    as [[[]|e] s1]; run_M; try reflexivity.
  destruct (install_whisper env s1) as [[[]|e] s2]; run_M; try reflexivity.
  destruct (bool_decide ("whisper" ∈ modules s2)); reflexivity.
Qed.

End Invoker.

(** ** The dispatcher *)

(** The command line [argv] is accepted by the parser with namespace [ns]. *)
Definition parses_to (argv : list string) (ns : gmap string pyval) : Prop :=
  Argparse.parse_args subparsers parser argv = Argparse.PDone ns [].

(** [args.verify], as line 194 reads it. *)
Definition wants_verify (ns : gmap string pyval) : bool :=
  from_option truthy false (ns !! "verify").

Definition abort_line : event :=
  EPrint "Model URL verification failed. Aborting download.".

Section Dispatcher.

Variable env : Env.

Lemma main_parsed argv ns s :
  parses_to argv ns → main env argv s = dispatch env ns s.
Proof.
  unfold parses_to, main, parse_args. intros ->. reflexivity.
Qed.

Lemma main_rejected argv prog err s :
  Argparse.parse_args subparsers parser argv = Argparse.PError prog err →
  main env argv s = (Raise (SystemExit 2), logged s [EUsageError prog err]).
Proof.
  unfold main, parse_args. intros ->. reflexivity.
Qed.

Lemma main_help argv prog s :
  Argparse.parse_args subparsers parser argv = Argparse.PHelp prog →
  main env argv s = (Raise (SystemExit 0), logged s [EHelp prog]).
Proof.
  unfold main, parse_args. intros ->. reflexivity.
Qed.

Lemma dispatch_no_command ns s :
  ns !! "command" = Some PNone →
  dispatch env ns s =
    (Raise (SystemExit 1), logged s [EHelp "simple_whisper_solution.py"]).
Proof.
  intros Hc. unfold dispatch, getattr. rewrite Hc. reflexivity.
Qed.

Lemma dispatch_transcribe ns audio_path s :
  ns !! "command" = Some (PStr "transcribe") →
  ns !! "audio_path" = Some (PStr audio_path) →
  dispatch env ns s =
    match transcribe_audio env audio_path s with
    | (Ok doc, s1) => (Raise (SystemExit 0), logged s1 [EPrintJson doc])
    | (Raise e, s1) => (Raise e, s1)
    end.
Proof.
  intros Hc Hp. unfold dispatch, getattr. rewrite Hc. run_M. rewrite Hp. run_M.
  destruct (transcribe_audio env audio_path s) as [[doc|e] s1]; reflexivity.
Qed.

(** Lines 198-199. *)
Definition download_and_exit (s : State) : res unit * State :=
  match download_model env s with
  | (Ok success, s1) => (Raise (SystemExit (if success : bool then 0 else 1)), s1)
  | (Raise e, s1) => (Raise e, s1)
  end.

Lemma dispatch_download ns s :
  ns !! "command" = Some (PStr "download") →
  dispatch env ns s =
    if wants_verify ns then
      let v := verify_verdict (http_head env model_url) in
      let s1 := logged s [EHead model_url 10; v.2] in
      if v.1 then download_and_exit s1
      else (Raise (SystemExit 1), logged s1 [abort_line])
    else download_and_exit s.
Proof.
  intros Hc. unfold dispatch, getattr, hasattr, wants_verify, download_and_exit.
  rewrite Hc. run_M.
  destruct (ns !! "verify") as [v|] eqn:Hv; run_M.
  - destruct (truthy v); run_M; [|reflexivity].
    rewrite verify_model_download_eq. run_M.
    destruct (verify_verdict (http_head env model_url)) as [[] ev]; reflexivity.
  - reflexivity.
Qed.

End Dispatcher.

(** ** The argument parser *)

Lemma omap_pair_length {A B} (f : A → option B) x y :
  f x = None ∨ f y = None → (List.length (omap f [x; y]) ≤ 1)%nat.
Proof.
  intros [H|H]; simpl; rewrite H; destruct (f x), (f y); simpl; lia.
Qed.

Lemma split_first_long t :
  ∃ a b, Str.split_first "=" (String "-" (String "-" t)) = (String "-" (String "-" a), b).
Proof.
  simpl. destruct (Str.split_first "=" t) as [a b]. eauto.
Qed.

Lemma prefix_long_short a : String.prefix (String "-" (String "-" a)) "-h" = false.
Proof. reflexivity. Qed.

Lemma prefix_short_long c2 t :
  Ascii.eqb c2 "-" = false → String.prefix (String "-" (String c2 t)) "--help" = false.
Proof.
  intros E. simpl. destruct (ascii_dec c2 "-") as [->|]; [|done].
  by rewrite Ascii.eqb_refl in E.
Qed.

Lemma substring_0_2 c1 c2 t :
  substring 0 2 (String c1 (String c2 t)) = String c1 (String c2 "").
Proof. simpl. by destruct t. Qed.

Lemma eqb_long_short c2 : String.eqb "--help" (String "-" (String c2 "")) = false.
Proof. apply String.eqb_neq. intros [=]. Qed.

(** The top-level parser knows [-h] and [--help] only: no argument is an
    ambiguous abbreviation. *)
Lemma get_option_tuples_parser c2 t :
  (List.length (Argparse._get_option_tuples parser (String "-" (String c2 t))) ≤ 1)%nat.
Proof.
  unfold Argparse._get_option_tuples.
  change (Argparse.option_string_actions parser)
    with [("-h", Argparse.Help); ("--help", Argparse.Help)].
  change (Argparse.is_long (String "-" (String c2 t))) with (Ascii.eqb c2 "-").
  destruct (Ascii.eqb c2 "-") eqn:E2.
  - apply Ascii.eqb_eq in E2. subst c2.
    destruct (Str.mem_char "=" _).
    + destruct (split_first_long t) as (a & b & ->).
      apply omap_pair_length. left. cbv beta iota. by rewrite prefix_long_short.
    + apply omap_pair_length. left. cbv beta iota. by rewrite prefix_long_short.
  - apply omap_pair_length. right.
    cbv beta iota. by rewrite substring_0_2, eqb_long_short, prefix_short_long.
Qed.

Lemma parse_optional_parser_total a :
  ∃ r, Argparse._parse_optional parser a = inr r.
Proof.
  destruct a as [|c1 tail]; [by eexists|].
  unfold Argparse._parse_optional.
  destruct (Ascii.eqb c1 "-") eqn:E1; simpl negb; cbv iota; [|by eexists].
  apply Ascii.eqb_eq in E1. subst c1.
  destruct (Argparse.lookup_action _ _); [by eexists|].
  destruct tail as [|c2 t]; [by eexists|].
  destruct (Argparse.split_explicit _ _); [by eexists|].
  pose proof (get_option_tuples_parser c2 t) as Hlen. cbv zeta.
  destruct (Argparse._get_option_tuples parser _) as [|t1 [|t2 l]];
    simpl in Hlen; [by eexists|by eexists|lia].
Qed.

Lemma classify_parser_total args :
  ∃ toks, Argparse.classify parser args = inr toks.
Proof.
  induction args as [|a args [toks IH]]; [by eexists|].
  simpl. destruct (String.eqb a "--"); [by eexists|].
  destruct (parse_optional_parser_total a) as [r ->]. rewrite IH. by eexists.
Qed.

(** An argument that argparse cannot take for an option: it is empty or
    does not start with [-]. *)
Definition plain (arg : string) : bool :=
  match arg with
  | EmptyString => true
  | String c _ => negb (Ascii.eqb c "-")
  end.

Lemma plain_positional p arg :
  plain arg = true → Argparse._parse_optional p arg = inr None.
Proof.
  destruct arg as [|c tail]; [done|]. simpl. by intros ->.
Qed.

Lemma plain_not_dashes arg : plain arg = true → String.eqb arg "--" = false.
Proof.
  intros Hp. apply String.eqb_neq. intros ->. discriminate.
Qed.

Lemma consume_positionals_invalid_choice sub name toks ns :
  name ∉ ["download"; "transcribe"] →
  Argparse.consume_positionals sub parser (Argparse.positional parser)
    ((name, Argparse.ClsA) :: toks) ns
  = Argparse.PosStop
      (Argparse.PError "simple_whisper_solution.py" (InvalidChoice name)).
Proof.
  intros Hname. unfold Argparse.consume_positionals. simpl.
  by rewrite bool_decide_eq_false_2.
Qed.

(** A first argument that is neither an option nor one of the two
    sub-commands is an invalid choice, whatever follows it. *)
Lemma parse_args_invalid_choice name rest :
  plain name = true →
  name ∉ ["download"; "transcribe"] →
  Argparse.parse_args subparsers parser (name :: rest)
  = Argparse.PError "simple_whisper_solution.py" (InvalidChoice name).
Proof.
  intros Hplain Hname.
  unfold Argparse.parse_args, Argparse.parse_known_args.
  cbn [Argparse.classify].
  rewrite (plain_not_dashes _ Hplain), (plain_positional _ _ Hplain).
  destruct (classify_parser_total rest) as [toks ->].
  cbn [Argparse.consume Argparse.next_option].
  destruct (Argparse.next_option toks) as [[[pre o] post]|].
  - destruct o as [s t].
    by rewrite consume_positionals_invalid_choice.
  - unfold Argparse.finish.
    by rewrite consume_positionals_invalid_choice.
Qed.

Lemma parse_args_nil :
  Argparse.parse_args subparsers parser [] = Argparse.PDone {["command" := PNone]} [].
Proof. reflexivity. Qed.

Lemma eqb_dashes_plain arg : plain arg = true → String.eqb "--" arg = false.
Proof.
  intros Hp. apply String.eqb_neq. intros <-. discriminate.
Qed.

Lemma transcribe_parser_plain path :
  plain path = true →
  Argparse.parse_known_args no_subparsers transcribe_parser [path]
  = Argparse.PDone (<["audio_path" := PStr path]> {["audio_path" := PNone]}) [].
Proof.
  intros Hplain. unfold Argparse.parse_known_args.
  cbn [Argparse.classify].
  rewrite (plain_not_dashes _ Hplain), (plain_positional _ _ Hplain).
  cbn [Argparse.consume Argparse.next_option].
  unfold Argparse.finish, Argparse.consume_positionals.
  cbn [Argparse.positional transcribe_parser Argparse.count_dashes drop take
       fmap list_fmap fst Nat.add Argparse.remove_first].
  by rewrite (eqb_dashes_plain _ Hplain).
Qed.

(** [transcribe <path>] for a plain path. *)
Lemma parse_args_transcribe path :
  plain path = true →
  ∃ ns, parses_to ["transcribe"; path] ns
        ∧ ns !! "command" = Some (PStr "transcribe")
        ∧ ns !! "audio_path" = Some (PStr path).
Proof.
  intros Hplain. unfold parses_to.
  unfold Argparse.parse_args, Argparse.parse_known_args.
  cbn [Argparse.classify].
  change (String.eqb "transcribe" "--") with false.
  change (Argparse._parse_optional parser "transcribe")
    with (@inr parse_error _ (@None Argparse.option_tuple)).
  cbv iota.
  rewrite (plain_not_dashes _ Hplain), (plain_positional _ _ Hplain).
  cbn [Argparse.consume Argparse.next_option].
  unfold Argparse.finish, Argparse.consume_positionals.
  cbn [Argparse.positional parser Argparse.count_dashes drop fmap list_fmap fst].
  rewrite bool_decide_eq_true_2 by set_solver.
  change (subparsers "transcribe" [path])
    with (Argparse.parse_known_args no_subparsers transcribe_parser [path]).
  rewrite (transcribe_parser_plain _ Hplain).
  cbn [drop List.length fmap list_fmap app].
  eexists. split; [reflexivity|]. split; reflexivity.
Qed.

(** ** Nothing is ever removed

    Every statement of the script only adds paths, modules and events. *)

Definition extends (s s' : State) : Prop :=
  fs s ⊆ fs s' ∧ modules s ⊆ modules s' ∧ trace s `prefix_of` trace s'.

Definition grows {A} (m : M A) : Prop :=
  ∀ s r s', m s = (r, s') → extends s s'.

Lemma extends_refl s : extends s s.
Proof. by repeat split. Qed.

Lemma extends_trans s1 s2 s3 : extends s1 s2 → extends s2 s3 → extends s1 s3.
Proof.
  intros (?&?&?) (?&?&?). repeat split; try set_solver. by etrans.
Qed.

Create HintDb grows.

Lemma grows_ret {A} (a : A) : grows (mret a).
Proof. intros s r s' [= <- <-]. apply extends_refl. Qed.

Lemma grows_raise {A} e : grows (@raise A e).
Proof. intros s r s' [= <- <-]. apply extends_refl. Qed.

Lemma grows_sys_exit {A} c : grows (@sys_exit A c).
Proof. apply grows_raise. Qed.

Lemma grows_lift {A} (x : exn + A) : grows (lift x).
Proof. destruct x; [apply grows_raise|apply grows_ret]. Qed.

Lemma grows_emit ev : grows (emit ev).
Proof.
  intros s r s' [= <- <-]. repeat split; simpl; try done. by apply prefix_app_r.
Qed.

Lemma grows_print line : grows (print line).
Proof. apply grows_emit. Qed.

Lemma grows_add_path p : grows (add_path p).
Proof. intros s r s' [= <- <-]. repeat split; simpl; try done. set_solver. Qed.

Lemma grows_add_modules ms : grows (add_modules ms).
Proof. intros s r s' [= <- <-]. repeat split; simpl; try done. set_solver. Qed.

Lemma grows_os_path_exists p : grows (os_path_exists p).
Proof. intros s r s' [= <- <-]. apply extends_refl. Qed.

Lemma grows_import name : grows (import_ name).
Proof.
  intros s r s'. unfold import_. destruct (bool_decide _); intros [= <- <-];
    apply extends_refl.
Qed.

Lemma grows_bind {A B} (m : M A) (f : A → M B) :
  grows m → (∀ a, grows (f a)) → grows (m ≫= f).
Proof.
  intros Hm Hf s r s'. unfold mbind, M_bind.
  destruct (m s) as [[a|e] s1] eqn:E.
  - intros Hr. eapply extends_trans; [by eapply Hm|by eapply Hf].
  - intros [= <- <-]. by eapply Hm.
Qed.

Lemma grows_fmap {A B} (g : A → B) (m : M A) : grows m → grows (g <$> m).
Proof.
  intros Hm s r s'. unfold fmap, M_fmap.
  destruct (m s) as [[a|e] s1] eqn:E; intros [= <- <-]; by eapply Hm.
Qed.

Lemma grows_try_except {A} catches (body : M A) handler :
  grows body → (∀ e, grows (handler e)) → grows (try_except catches body handler).
Proof.
  intros Hb Hh s r s'. unfold try_except.
  destruct (body s) as [[a|e] s1] eqn:E.
  - intros [= <- <-]. by eapply Hb.
  - destruct (catches e).
    + intros Hr. eapply extends_trans; [by eapply Hb|by eapply Hh].
    + intros [= <- <-]. by eapply Hb.
Qed.

Lemma grows_try_finally {A} (body : M A) cleanup :
  grows body → grows cleanup → grows (try_finally body cleanup).
Proof.
  intros Hb Hc s r s'. unfold try_finally.
  destruct (body s) as [[a|e] s1] eqn:E; intros Hr;
    (eapply extends_trans; [by eapply Hb|]);
    revert Hr; apply grows_bind; auto using grows_ret, grows_raise.
Qed.

#[global] Hint Resolve grows_ret grows_raise grows_sys_exit grows_lift grows_emit
  grows_print grows_add_path grows_add_modules grows_os_path_exists grows_import
  : grows.

(** Decompose a statement into its parts. *)
Ltac grows_step :=
  match goal with
  | |- grows (_ ≫= _) => apply grows_bind; [|intros ?]
  | |- grows (_ <$> _) => apply grows_fmap
  | |- grows (try_except _ _ _) => apply grows_try_except; [|intros ?]
  | |- grows (try_finally _ _) => apply grows_try_finally
  | |- grows (with_ _ _ _) => unfold with_
  | |- grows (os_makedirs _) => unfold os_makedirs
  | |- grows (if ?b then _ else _) => destruct b
  | |- grows (match ?x with _ => _ end) => destruct x
  | |- grows (let '(_, _) := ?x in _) => destruct x
  | |- _ => solve [auto with grows]
  end.

Ltac grows_auto := repeat grows_step.

Section Monotone.

Variable env : Env.

Lemma grows_download_model : grows (download_model env).
Proof. unfold download_model, urlretrieve. grows_auto. Qed.

Lemma grows_verify_model_download : grows (verify_model_download env).
Proof. unfold verify_model_download, urlopen_head. grows_auto. Qed.

Lemma grows_install_whisper : grows (install_whisper env).
Proof. unfold install_whisper, pip_check_call. grows_auto. Qed.

Hint Resolve grows_download_model grows_verify_model_download
  grows_install_whisper : grows.

Lemma grows_transcribe_audio audio_path : grows (transcribe_audio env audio_path).
Proof.
  unfold transcribe_audio, load_model, model_transcribe, dict_item. grows_auto.
Qed.

Hint Resolve grows_transcribe_audio : grows.

Lemma grows_parse_args argv : grows (parse_args argv).
Proof. unfold parse_args. grows_auto. Qed.

Lemma grows_dispatch args : grows (dispatch env args).
Proof. unfold dispatch, getattr. grows_auto. Qed.

Hint Resolve grows_parse_args grows_dispatch : grows.



End Monotone.

(** ** The module body *)

Section Boot.

Variable env : Env.

(** The state in which [main] starts: after the module body has run. *)
Definition booted (s0 : State) : State := (module_level env s0).2.

(** What the tqdm fallback of lines 21-53 prints and runs. *)
Definition tqdm_events (s0 : State) : list event :=
  if bool_decide ("tqdm" ∈ modules s0) then []
  else
    EPrint "Installing tqdm package..." :: EPip "tqdm" ::
    match pip_install env "tqdm" with
    | PipRaises _ msg => [EPrint ("Error installing tqdm package: " +:+ msg)]
    | PipOk provides =>
        if bool_decide ("tqdm" ∈ provides ∪ modules s0) then []
        else [EPrint ("Error installing tqdm package: " +:+ "No module named 'tqdm'")]
    end.

Lemma module_level_eq s0 :
  module_level env s0 =
    (Ok tt,
     {| fs := {[MODELS_DIR env]} ∪ fs s0;
        modules := match pip_install env "tqdm" with
                   | PipOk provides =>
                       if bool_decide ("tqdm" ∈ modules s0) then modules s0
                       else provides ∪ modules s0
                   | PipRaises _ _ => modules s0
                   end;
        trace := trace s0 ++ tqdm_events s0 ++ [EMakedirs (MODELS_DIR env)] |}).
Proof.
  unfold module_level, pip_check_call, tqdm_events. run_M.
  destruct (bool_decide ("tqdm" ∈ modules s0)) eqn:Htqdm; run_M.
  - destruct (pip_install env "tqdm"); reflexivity.
  - destruct (pip_install env "tqdm") as [cls msg|provides]; run_M.
    + norm_trace. reflexivity.
    + destruct (bool_decide ("tqdm" ∈ provides ∪ modules s0)); run_M;
        norm_trace; reflexivity.
Qed.

Lemma module_level_ok s0 : module_level env s0 = (Ok tt, booted s0).
Proof. unfold booted. by rewrite module_level_eq. Qed.

Lemma script_eq argv s0 : script env argv s0 = main env argv (booted s0).
Proof.
  unfold script. unfold mbind at 1, M_bind. by rewrite module_level_ok.
Qed.



End Boot.

(** ** When the import of line 157 cannot fail *)

(** Whisper is importable, or becomes importable whenever pip reports
    success. *)
Definition import_follows_install (env : Env) (s : State) : Prop :=
  "whisper" ∈ modules s ∨
  match pip_install env "openai-whisper" with
  | PipOk provides => "whisper" ∈ provides
  | PipRaises _ _ => True
  end.

Lemma ensure_model_modules env s ok s1 :
  ensure_model env s = (Ok ok, s1) → modules s1 = modules s.
Proof.
  unfold ensure_model. run_M.
  destruct (bool_decide (WHISPER_MODEL_PATH env ∈ fs s)) eqn:Hm; run_M.
  - by intros [= _ <-].
  - apply bool_decide_eq_false_1 in Hm. rewrite download_model_fresh by done.
    destruct (http_get env model_url); by intros [= _ <-].
Qed.

(** Under that assumption [transcribe_audio] returns a document, whatever
    else fails. *)
Lemma transcribe_audio_returns env audio_path s :
  import_follows_install env s →
  ∃ doc s', transcribe_audio env audio_path s = (Ok doc, s').
Proof.
  intros Himport. rewrite transcribe_audio_stages.
  destruct (bool_decide (audio_path ∈ fs s)); [|eauto].
  destruct (ensure_model_returns env s) as (ok & s1 & Hmodel). rewrite Hmodel.
  pose proof (ensure_model_modules _ _ _ _ Hmodel) as Hmods.
  destruct ok; [|eauto].
  rewrite install_whisper_eq, Hmods.
  destruct (bool_decide ("whisper" ∈ modules s)) eqn:Hin.
  - simpl. rewrite Hmods, Hin. apply transcribe_block_returns.
  - destruct Himport as [Hs|Hpip]; [by rewrite bool_decide_eq_true_2 in Hin|].
    destruct (pip_install env "openai-whisper") as [cls msg|provides]; [eauto|].
    simpl. rewrite bool_decide_eq_true_2 by (apply elem_of_union; by left).
    apply transcribe_block_returns.
Qed.

(** * The statements of the specification *)

(** ** Sample worlds *)

(** A reachable model URL, a working pip, and a whisper library stubbed to
    answer [{"text": "hello", "language": "en"}]. *)
Definition stub_env : Env := {|
  home := Some "/home/user";
  http_head := λ _, HeadResponds {| status := 200; content_length := Some "77691713" |};
  http_get := λ _, GetOk;
  pip_install := λ package,
    PipOk (if String.eqb package "openai-whisper" then {["whisper"]} else {[package]});
  whisper_load_model := λ _, None;
  whisper_transcribe := λ _, inr [("text", PStr "hello"); ("language", PStr "en")]
|}.

(** A machine where everything is in place. *)
Definition installed_state : State := {|
  fs := {["/home/user/sample.wav";
          "/home/user/.fethr/models";
          "/home/user/.fethr/models/ggml-tiny.en.bin"]};
  modules := {["tqdm"; "whisper"]};
  trace := []
|}.

(** A machine on first use: no model, no whisper. *)
Definition first_use_state : State := {|
  fs := {["/home/user/sample.wav"]};
  modules := {["tqdm"]};
  trace := []
|}.

(** The model has moved: both requests answer 404. *)
Definition moved_env : Env := {|
  home := Some "/home/user";
  http_head := λ _, HeadRaises "HTTPError" "HTTP Error 404: Not Found";
  http_get := λ _, GetRaises "HTTPError" "HTTP Error 404: Not Found" false;
  pip_install := λ _, PipOk ∅;
  whisper_load_model := λ _, None;
  whisper_transcribe := λ _, inr []
|}.

(** The server answers 200 to HEAD without a Content-Length. *)
Definition chunked_env : Env := {|
  home := Some "/home/user";
  http_head := λ _, HeadResponds {| status := 200; content_length := None |};
  http_get := λ _, GetOk;
  pip_install := λ _, PipOk ∅;
  whisper_load_model := λ _, None;
  whisper_transcribe := λ _, inr []
|}.

(** Whisper cannot be imported although pip reports success (the package
    is installed where this interpreter does not look, or its import
    fails). *)
Definition broken_import_env : Env := {|
  home := Some "/home/user";
  http_head := λ _, HeadResponds {| status := 200; content_length := Some "77691713" |};
  http_get := λ _, GetOk;
  pip_install := λ _, PipOk ∅;
  whisper_load_model := λ _, None;
  whisper_transcribe := λ _, inr [("text", PStr "hello"); ("language", PStr "en")]
|}.

Definition model_present_state : State := {|
  fs := {["/home/user/sample.wav";
          "/home/user/.fethr/models";
          "/home/user/.fethr/models/ggml-tiny.en.bin"]};
  modules := {["tqdm"]};
  trace := []
|}.

(** ** Content-Length values *)

(** The value of a string of decimal digits, read after [acc]. *)
Fixpoint decimal_from (s : string) (acc : Z) : Z :=
  match s with
  | EmptyString => acc
  | String c s' => decimal_from s' (10 * acc + Str.digit_value c)
  end.

Definition decimal_value (s : string) : Z := decimal_from s 0.

(** A Content-Length as HTTP writes it (one or more digits), of at most
    300 digits. *)
Definition is_content_length (s : string) : bool :=
  Str.all_digits s && negb (String.eqb s "") && (String.length s <=? 300)%nat.

Lemma rev_app_rev_app s t u :
  String.rev_app (String.rev_app s t) u = String.rev_app t (s +:+ u).
Proof.
  revert t u. induction s as [|a s IH]; intros t u; [done|].
  simpl. by rewrite IH.
Qed.

Lemma string_app_nil_r (s : string) : s +:+ "" = s.
Proof.
  induction s as [|a s IH]; [done|].
  change (String a (s +:+ "") = String a s). by f_equal.
Qed.

Lemma rev_involutive s : String.rev (String.rev s) = s.
Proof.
  unfold String.rev. rewrite rev_app_rev_app. simpl. apply string_app_nil_r.
Qed.

Lemma all_digits_rev_app s t :
  Str.all_digits (String.rev_app s t)
  = Str.all_digits s && Str.all_digits t.
Proof.
  revert t. induction s as [|a s IH]; intros t; [done|].
  simpl. rewrite IH. simpl. destruct (Str.is_digit a), (Str.all_digits s); done.
Qed.

Lemma digit_not_space c : Str.is_digit c = true → Str.is_space c = false.
Proof.
  unfold Str.is_digit, Str.is_space. intros H.
  apply andb_true_iff in H as [H1 H2].
  apply Nat.leb_le in H1. apply Nat.leb_le in H2.
  apply orb_false_iff. split.
  - apply andb_false_iff. right. apply Nat.leb_gt. lia.
  - apply Nat.eqb_neq. lia.
Qed.

Lemma lstrip_digits s : Str.all_digits s = true → Str.lstrip s = s.
Proof.
  destruct s as [|c s]; [done|]. simpl. intros H.
  apply andb_true_iff in H as [Hc _]. by rewrite (digit_not_space _ Hc).
Qed.

Lemma strip_digits s : Str.all_digits s = true → Str.strip s = s.
Proof.
  intros H. unfold Str.strip, Str.rstrip. rewrite (lstrip_digits _ H).
  rewrite lstrip_digits; [apply rev_involutive|].
  unfold String.rev. rewrite all_digits_rev_app, H. done.
Qed.

Lemma digits_all s prev acc count :
  Str.all_digits s = true →
  s ≠ "" ∨ prev = true →
  PyInt.digits s prev acc count = Some (decimal_from s acc, (count + String.length s)%nat).
Proof.
  revert prev acc count. induction s as [|c s IH]; intros prev acc count Hall Hne.
  - destruct Hne as [?| ->]; [done|]. simpl. by rewrite Nat.add_0_r.
  - simpl in *. apply andb_true_iff in Hall as [Hc Hs]. rewrite Hc.
    rewrite IH by auto. do 2 f_equal. lia.
Qed.

Lemma digit_value_range c : Str.is_digit c = true → 0 ≤ Str.digit_value c ≤ 9.
Proof.
  unfold Str.is_digit, Str.digit_value. intros H.
  apply andb_true_iff in H as [H1 H2].
  apply Nat.leb_le in H1. apply Nat.leb_le in H2. lia.
Qed.

Lemma decimal_from_range s acc :
  Str.all_digits s = true → 0 ≤ acc →
  0 ≤ decimal_from s acc < (acc + 1) * 10 ^ Z.of_nat (String.length s).
Proof.
  revert acc. induction s as [|c s IH]; intros acc Hall Hacc.
  - simpl. lia.
  - simpl in Hall. apply andb_true_iff in Hall as [Hc Hs].
    pose proof (digit_value_range _ Hc) as Hd.
    cbn [decimal_from String.length].
    specialize (IH (10 * acc + Str.digit_value c) Hs ltac:(lia)).
    rewrite Nat2Z.inj_succ, Z.pow_succ_r by lia.
    nia.
Qed.

Lemma sign_of_digit c : Str.is_digit c = true →
  Ascii.eqb c "-" = false ∧ Ascii.eqb c "+" = false.
Proof.
  intros H. split; apply Ascii.eqb_neq; intros ->; discriminate.
Qed.

(** [int()] reads a Content-Length as its decimal value, and the size in
    megabytes is in the range of a float. *)
Lemma of_str_content_length header :
  is_content_length header = true →
  PyInt.of_str header = inr (decimal_value header)
  ∧ PyInt.megabytes_overflow (decimal_value header) = false.
Proof.
  unfold is_content_length. intros H.
  apply andb_true_iff in H as [H Hlen]. apply andb_true_iff in H as [Hall Hne].
  apply negb_true_iff, String.eqb_neq in Hne. apply Nat.leb_le in Hlen.
  pose proof (decimal_from_range header 0 Hall ltac:(lia)) as Hrange.
  fold (decimal_value header) in Hrange.
  assert (10 ^ Z.of_nat (String.length header) ≤ 10 ^ 300) as Hpow
    by (apply Z.pow_le_mono_r; lia).
  split.
  - unfold PyInt.of_str. rewrite (strip_digits _ Hall).
    destruct header as [|c rest]; [done|].
    simpl in Hall. apply andb_true_iff in Hall as [Hc Hrest].
    destruct (sign_of_digit _ Hc) as [-> ->].
    rewrite (digits_all (String c rest) false 0 0); [|by simpl; rewrite Hc, Hrest|by left].
    replace (PyInt.max_str_digits <? 0 + String.length (String c rest))%nat with false.
    + reflexivity.
    + symmetry. apply Nat.ltb_ge. unfold PyInt.max_str_digits. lia.
  - unfold PyInt.megabytes_overflow. apply Z.leb_gt.
    rewrite Z.abs_eq by lia.
    assert (10 ^ 300 < 2 ^ 1044 - 2 ^ 990) by (by vm_compute).
    lia.
Qed.

(** ** C1 *)

(** C1 does not hold of the code.  The audio file and the model are in
    place; [import whisper] fails in [install_whisper], pip reports
    success, and the second [import whisper], at line 157, is outside
    every [try]: its [ModuleNotFoundError] leaves [transcribe_audio] and
    [main], nothing is printed as JSON, and the process ends with a
    traceback and status 1. *)
Theorem C1_import_error_escapes :
  transcribe_audio broken_import_env "/home/user/sample.wav" model_present_state
  = (Raise (PyExc "ModuleNotFoundError" "No module named 'whisper'"),
     logged model_present_state
       [EPrint "Installing whisper package...";
        EPip "openai-whisper";
        EPrint "Whisper package installed successfully"])
  ∧ script broken_import_env ["transcribe"; "/home/user/sample.wav"] model_present_state
    = (Raise (PyExc "ModuleNotFoundError" "No module named 'whisper'"),
       logged model_present_state
         [EMakedirs "/home/user/.fethr/models";
          EPrint "Installing whisper package...";
          EPip "openai-whisper";
          EPrint "Whisper package installed successfully"])
  ∧ exit_status
      (script broken_import_env ["transcribe"; "/home/user/sample.wav"]
         model_present_state).1 = 1
  ∧ install_whisper broken_import_env model_present_state
    = (Ok true,
       logged model_present_state
         [EPrint "Installing whisper package...";
          EPip "openai-whisper";
          EPrint "Whisper package installed successfully"]).
Proof. repeat split; by vm_compute. Qed.

(** The import of line 157 is the only leak: when whisper is importable
    once pip has succeeded, the [transcribe] command prints a document and
    exits with status 0, whatever else fails. *)
Lemma transcribe_exits_0 env ns audio_path s :
  import_follows_install env s →
  ns !! "command" = Some (PStr "transcribe") →
  ns !! "audio_path" = Some (PStr audio_path) →
  ∃ doc s', dispatch env ns s = (Raise (SystemExit 0), logged s' [EPrintJson doc]).
Proof.
  intros Himport Hcommand Hpath.
  rewrite (dispatch_transcribe _ _ _ _ Hcommand Hpath).
  destruct (transcribe_audio_returns env audio_path s Himport) as (doc & s' & ->).
  by exists doc, s'.
Qed.

(** ** C2 *)

(** C2. If the audio path does not exist, [transcribe_audio] returns at
    once the document [{"error": "Audio file not found: <path>"}]: the
    state is untouched, so no download and no installation was attempted;
    and the [transcribe] command prints that document and exits with
    status 0. *)
Theorem C2_missing_audio_fails_fast env audio_path s :
  audio_path ∉ fs s →
  transcribe_audio env audio_path s
    = (Ok (PDict [("error", PStr ("Audio file not found: " +:+ audio_path))]), s)
  ∧ (∀ argv ns,
       parses_to argv ns →
       ns !! "command" = Some (PStr "transcribe") →
       ns !! "audio_path" = Some (PStr audio_path) →
       main env argv s
         = (Raise (SystemExit 0),
            logged s [EPrintJson
                        (PDict [("error", PStr ("Audio file not found: " +:+ audio_path))])])
       ∧ exit_status (main env argv s).1 = 0
       ∧ (∀ s0, booted env s0 = s → exit_status (script env argv s0).1 = 0))
  ∧ (plain audio_path = true →
     main env ["transcribe"; audio_path] s
       = (Raise (SystemExit 0),
          logged s [EPrintJson
                      (PDict [("error", PStr ("Audio file not found: " +:+ audio_path))])])).
Proof.
  intros Hmissing.
  pose proof (transcribe_audio_missing env _ _ Hmissing) as Hfast.
  assert (∀ argv ns,
            parses_to argv ns →
            ns !! "command" = Some (PStr "transcribe") →
            ns !! "audio_path" = Some (PStr audio_path) →
            main env argv s
              = (Raise (SystemExit 0),
                 logged s [EPrintJson (not_found_document audio_path)])) as Hmain.
  { intros argv ns Hparse Hcommand Hpath.
    rewrite (main_parsed _ _ _ _ Hparse).
    rewrite (dispatch_transcribe _ _ _ _ Hcommand Hpath).
    by rewrite Hfast. }
  split; [exact Hfast|]. split.
  - intros argv ns Hparse Hcommand Hpath.
    rewrite (Hmain _ _ Hparse Hcommand Hpath). repeat split.
    intros s0 <-. rewrite script_eq. by rewrite (Hmain _ _ Hparse Hcommand Hpath).
  - intros Hplain.
    destruct (parse_args_transcribe _ Hplain) as (ns & Hparse & Hcommand & Hpath).
    exact (Hmain _ _ Hparse Hcommand Hpath).
Qed.

Lemma C2_witness :
  ("/home/user/missing.wav" ∉ fs installed_state)
  ∧ main stub_env ["transcribe"; "/home/user/missing.wav"] installed_state
    = (Raise (SystemExit 0),
       logged installed_state
         [EPrintJson
            (PDict [("error", PStr "Audio file not found: /home/user/missing.wav")])]).
Proof.
  assert ("/home/user/missing.wav" ∉ fs installed_state) as Hmissing.
  { apply (bool_decide_unpack _). by vm_compute. }
  split; [exact Hmissing|].
  destruct (C2_missing_audio_fails_fast stub_env _ _ Hmissing) as (_ & _ & Hmain).
  by apply Hmain.
Defined.

(** ** C3 *)

Definition already_exists_line (env : Env) : event :=
  EPrint ("Model already exists at: " +:+ WHISPER_MODEL_PATH env).

(** C3. When the model file exists, [download_model] returns success and
    changes nothing but the trace, to which it adds one printed line: no
    request is made and nothing is read.  A second call does the same
    again.  Existence is all that is looked at: after a transfer that
    failed and left a partial file, the next call reports success too,
    without any request. *)
Theorem C3_download_model_cached env s :
  WHISPER_MODEL_PATH env ∈ fs s →
  let s1 := logged s [already_exists_line env] in
  download_model env s = (Ok true, s1)
  ∧ download_model env s1 = (Ok true, logged s1 [already_exists_line env])
  ∧ Forall (λ ev, is_network ev = false)
           (drop (List.length (trace s)) (trace (download_model env s1).2))
  ∧ (∀ s' cls msg,
       WHISPER_MODEL_PATH env ∉ fs s' →
       http_get env model_url = GetRaises cls msg true →
       ∃ s'', download_model env s' = (Ok false, s'')
              ∧ download_model env s'' = (Ok true, logged s'' [already_exists_line env])).
Proof.
  intros Hin s1.
  assert (WHISPER_MODEL_PATH env ∈ fs s1) as Hin1 by done.
  rewrite (download_model_cached env s Hin), (download_model_cached env s1 Hin1).
  repeat split.
  - simpl. rewrite <- app_assoc, drop_app_length. by repeat constructor.
  - intros s' cls msg Hnotin Hget.
    rewrite (download_model_fresh env s' Hnotin), Hget.
    eexists. split; [reflexivity|].
    apply download_model_cached. simpl. set_solver.
Qed.

Lemma C3_witness :
  WHISPER_MODEL_PATH stub_env ∈ fs installed_state
  ∧ download_model stub_env installed_state
    = (Ok true,
       logged installed_state
         [EPrint "Model already exists at: /home/user/.fethr/models/ggml-tiny.en.bin"]).
Proof.
  assert (WHISPER_MODEL_PATH stub_env ∈ fs installed_state) as Hin.
  { apply (bool_decide_unpack _). by vm_compute. }
  split; [exact Hin|].
  exact (proj1 (C3_download_model_cached stub_env installed_state Hin)).
Defined.

(** ** C4 *)

(** The model is on disk or the download succeeds. *)
Definition model_ready (env : Env) (s : State) : Prop :=
  WHISPER_MODEL_PATH env ∈ fs s ∨ http_get env model_url = GetOk.

(** Whisper can be imported, now or after the installation. *)
Definition whisper_ready (env : Env) (s : State) : Prop :=
  "whisper" ∈ modules s
  ∨ ∃ provides, pip_install env "openai-whisper" = PipOk provides ∧ "whisper" ∈ provides.

(** The document of a successful transcription, lines 169-173. *)
Definition transcription_document (text : pyval) (result : pydict) : pyval :=
  PDict [("text", text);
         ("language", dict_get "language" (PStr "en") result);
         ("segments", dict_get "segments" (PList []) result)].

Lemma ensure_model_ready env s :
  model_ready env s → ∃ s1, ensure_model env s = (Ok true, s1) ∧ modules s1 = modules s.
Proof.
  intros Hready. unfold ensure_model. run_M.
  destruct (bool_decide (WHISPER_MODEL_PATH env ∈ fs s)) eqn:Hm; run_M; [by eexists|].
  apply bool_decide_eq_false_1 in Hm.
  destruct Hready as [Hin|Hget]; [done|].
  rewrite (download_model_fresh env s Hm), Hget. by eexists.
Qed.

Lemma install_whisper_ready env s :
  whisper_ready env s →
  ∃ s2, install_whisper env s = (Ok true, s2) ∧ "whisper" ∈ modules s2.
Proof.
  intros Hready. rewrite install_whisper_eq.
  destruct (bool_decide ("whisper" ∈ modules s)) eqn:Hin.
  - apply bool_decide_eq_true_1 in Hin. by eexists.
  - destruct Hready as [Hs|(provides & -> & Hp)].
    + by rewrite bool_decide_eq_true_2 in Hin.
    + eexists. split; [reflexivity|]. simpl. apply elem_of_union. by left.
Qed.

Lemma transcribe_block_success env audio_path s result text :
  whisper_load_model env MODEL_SIZE = None →
  whisper_transcribe env audio_path = inr result →
  dict_lookup "text" result = Some text →
  json_reject (transcription_document text result) = None →
  transcribe_block env audio_path s
  = (Ok (transcription_document text result),
     logged s [EPrint "Loading Whisper model: tiny"; ELoadModel "tiny";
               EPrint ("Transcribing audio: " +:+ audio_path);
               ETranscribe audio_path]).
Proof.
  intros Hload Hresult Htext Hjson.
  unfold transcribe_block, load_model, model_transcribe, dict_item. run_M.
  rewrite Hload. run_M. rewrite Hresult. run_M. rewrite Htext. run_M.
  unfold json_dumps. unfold transcription_document in Hjson. rewrite Hjson. run_M.
  unfold logged. norm_trace. reflexivity.
Qed.

(** C4. When the transcription succeeds (the audio file exists, the model
    is on disk or downloads, whisper imports or installs, the model loads,
    and the library returns a result with a [text] whose parts JSON can
    hold), [transcribe_audio] returns the document with exactly the fields
    [text], [language] and [segments], in this order: [text] is the
    result's, [language] is the result's or ["en"], [segments] is the
    result's or the empty list; the [transcribe] command prints it and
    exits with status 0.  For the result [{"text": "hello", "language":
    "en"}] the document has text "hello" and language "en". *)
Theorem C4_transcription_document env audio_path s result text :
  audio_path ∈ fs s →
  model_ready env s →
  whisper_ready env s →
  whisper_load_model env "tiny" = None →
  whisper_transcribe env audio_path = inr result →
  dict_lookup "text" result = Some text →
  json_reject (transcription_document text result) = None →
  ∃ language segments s',
    transcribe_audio env audio_path s
      = (Ok (PDict [("text", text); ("language", language); ("segments", segments)]), s')
    ∧ language = from_option id (PStr "en") (dict_lookup "language" result)
    ∧ segments = from_option id (PList []) (dict_lookup "segments" result)
    ∧ (∀ ns, ns !! "command" = Some (PStr "transcribe") →
             ns !! "audio_path" = Some (PStr audio_path) →
             dispatch env ns s
               = (Raise (SystemExit 0),
                  logged s' [EPrintJson (PDict [("text", text);
                                                ("language", language);
                                                ("segments", segments)])]))
    ∧ (result = [("text", PStr "hello"); ("language", PStr "en")] →
       text = PStr "hello" ∧ language = PStr "en" ∧ segments = PList []).
Proof.
  intros Haudio Hmodel Hwhisper Hload Hresult Htext Hjson.
  destruct (ensure_model_ready env s Hmodel) as (s1 & Hs1 & Hmods).
  assert (whisper_ready env s1) as Hwhisper1 by (unfold whisper_ready; by rewrite Hmods).
  destruct (install_whisper_ready env s1 Hwhisper1) as (s2 & Hs2 & Himport).
  assert (transcribe_audio env audio_path s
          = (Ok (transcription_document text result),
             logged s2 [EPrint "Loading Whisper model: tiny"; ELoadModel "tiny";
                        EPrint ("Transcribing audio: " +:+ audio_path);
                        ETranscribe audio_path])) as Hrun.
  { rewrite transcribe_audio_stages.
    rewrite bool_decide_eq_true_2 by done. rewrite Hs1, Hs2.
    rewrite bool_decide_eq_true_2 by done.
    by apply transcribe_block_success. }
  eexists _, _, _. split; [exact Hrun|].
  split; [unfold dict_get; by destruct (dict_lookup "language" result)|].
  split; [unfold dict_get; by destruct (dict_lookup "segments" result)|].
  split.
  - intros ns Hcommand Hpath.
    rewrite (dispatch_transcribe _ _ _ _ Hcommand Hpath). by rewrite Hrun.
  - intros ->. injection Htext as <-. by repeat split.
Qed.

(** A short sample file and the stubbed library, on first use: the model
    is downloaded, whisper is installed, and the document is returned. *)
Lemma C4_witness :
  (∃ s', transcribe_audio stub_env "/home/user/sample.wav" first_use_state
         = (Ok (PDict [("text", PStr "hello"); ("language", PStr "en");
                       ("segments", PList [])]), s'))
  ∧ whisper_transcribe stub_env "/home/user/sample.wav"
    = inr [("text", PStr "hello"); ("language", PStr "en")].
Proof.
  split; [|reflexivity].
  assert ("/home/user/sample.wav" ∈ fs first_use_state) as Haudio.
  { apply (bool_decide_unpack _). by vm_compute. }
  assert (model_ready stub_env first_use_state) as Hmodel by (by right).
  assert (whisper_ready stub_env first_use_state) as Hwhisper.
  { right. exists {["whisper"]}. split; [reflexivity|]. by apply elem_of_singleton. }
  destruct (C4_transcription_document stub_env _ first_use_state
              [("text", PStr "hello"); ("language", PStr "en")] (PStr "hello")
              Haudio Hmodel Hwhisper eq_refl eq_refl eq_refl eq_refl)
    as (language & segments & s' & Hrun & -> & -> & _).
  by exists s'.
Defined.

(** ** C5 *)

(** C5. The [download] command.  With [--verify] and a failed check the
    process exits with status 1 after the HEAD request and two printed
    lines: the download is not attempted.  Otherwise [download_model]
    runs, in the state the check left if there was one, and the exit
    status is 0 when it returns success and 1 when it returns failure.
    A transfer that raises makes [download_model] return failure after
    printing the error, followed for a 404 by the note that the model may
    have been moved or renamed. *)
Theorem C5_download_exit_codes env argv ns s :
  parses_to argv ns →
  ns !! "command" = Some (PStr "download") →
  let verdict := verify_verdict (http_head env model_url) in
  let checked := logged s [EHead model_url 10; verdict.2] in
  (wants_verify ns = true → verdict.1 = false →
     (verify_model_download env s).1 = Ok false
     ∧ main env argv s = (Raise (SystemExit 1), logged checked [abort_line])
     ∧ Forall (λ ev, ∀ url dest, ev ≠ EGet url dest)
              (drop (List.length (trace s)) (trace (main env argv s).2)))
  ∧ (∀ s1, (wants_verify ns = false ∧ s1 = s)
           ∨ (wants_verify ns = true ∧ verdict.1 = true ∧ s1 = checked) →
       ∃ success s2,
         download_model env s1 = (Ok success, s2)
         ∧ main env argv s = (Raise (SystemExit (if success : bool then 0 else 1)), s2)
         ∧ exit_status (main env argv s).1 = (if success then 0 else 1))
  ∧ (∀ s1 cls msg partial,
       WHISPER_MODEL_PATH env ∉ fs s1 →
       http_get env model_url = GetRaises cls msg partial →
       ∃ s2, download_model env s1 = (Ok false, s2)
             ∧ trace s2 = trace s1 ++ download_prologue env
                          ++ [EPrint ("Error downloading model: " +:+ msg)]
                          ++ (if Str.contains "HTTP Error 404" msg
                              then moved_or_renamed else []))
  ∧ (∀ s0, booted env s0 = s → script env argv s0 = main env argv s).
Proof.
  intros Hparse Hcommand. cbv zeta.
  rewrite (main_parsed _ _ _ _ Hparse), (dispatch_download _ _ _ Hcommand).
  cbv zeta.
  set (verdict := verify_verdict (http_head env model_url)).
  set (checked := logged s [EHead model_url 10; verdict.2]).
  split; [|split; [|split]].
  4: { intros s0 <-.
       by rewrite script_eq, (main_parsed _ _ _ _ Hparse),
         (dispatch_download _ _ _ Hcommand). }
  - intros Hyes Hfail. rewrite Hyes, Hfail. split; [|split].
    + rewrite verify_model_download_eq. fold verdict. simpl. by rewrite Hfail.
    + reflexivity.
    + simpl. rewrite <- app_assoc, drop_app_length.
      constructor; [done|]. constructor; [|by repeat constructor].
      intros url dest Hget.
      pose proof (verify_verdict_prints (http_head env model_url)) as Hprint.
      fold verdict in Hprint. by rewrite Hget in Hprint.
  - intros s1 [[Hno ->]|(Hyes & Hok & ->)].
    + rewrite Hno. unfold download_and_exit.
      destruct (download_model_returns env s) as (success & s2 & ->).
      by exists success, s2.
    + rewrite Hyes, Hok. unfold download_and_exit.
      destruct (download_model_returns env checked) as (success & s2 & ->).
      by exists success, s2.
  - intros s1 cls msg partial Hnotin Hget.
    rewrite (download_model_fresh env s1 Hnotin), Hget.
    eexists. split; reflexivity.
Qed.

Definition download_namespace (verbose verify : bool) : gmap string pyval :=
  {["command" := PStr "download"; "verbose" := PBool verbose; "verify" := PBool verify]}.

(** The model has moved: [download --verify] stops at the check, and
    [download] fails with the 404 note; both exit with status 1. *)
Lemma C5_witness :
  parses_to ["download"; "--verify"] (download_namespace false true)
  ∧ parses_to ["download"] (download_namespace false false)
  ∧ main moved_env ["download"; "--verify"] first_use_state
    = (Raise (SystemExit 1),
       logged first_use_state
         [EHead model_url 10;
          EPrint "Error verifying model URL: HTTP Error 404: Not Found";
          abort_line])
  ∧ exit_status (main moved_env ["download"] first_use_state).1 = 1
  ∧ (∃ s2, download_model moved_env first_use_state = (Ok false, s2)
           ∧ trace s2 = download_prologue moved_env
                        ++ [EPrint "Error downloading model: HTTP Error 404: Not Found"]
                        ++ moved_or_renamed).
Proof.
  assert (parses_to ["download"; "--verify"] (download_namespace false true)) as Hverify
    by (by vm_compute).
  assert (parses_to ["download"] (download_namespace false false)) as Hplain
    by (by vm_compute).
  split; [exact Hverify|]. split; [exact Hplain|].
  destruct (C5_download_exit_codes moved_env _ _ first_use_state Hverify eq_refl)
    as (Hstop & _ & _ & _).
  destruct (C5_download_exit_codes moved_env _ _ first_use_state Hplain eq_refl)
    as (_ & Hrun & Hfail & _).
  split; [exact (proj1 (proj2 (Hstop eq_refl eq_refl)))|].
  assert (WHISPER_MODEL_PATH moved_env ∉ fs first_use_state) as Hnotin.
  { apply (bool_decide_unpack _). by vm_compute. }
  destruct (Hfail first_use_state _ _ _ Hnotin eq_refl) as (s2 & Hdl & Htrace).
  split; [|by exists s2].
  destruct (Hrun first_use_state (or_introl (conj eq_refl eq_refl)))
    as (success & s2' & Hdl' & _ & Hexit).
  rewrite Hexit. rewrite Hdl in Hdl'. by injection Hdl' as <- _.
Defined.

(** ** C6 *)

(** C6. [verify_model_download] makes exactly one request: a HEAD request
    to the model URL (the URL [download_model] fetches) with a timeout of
    10 seconds; the only other thing it does is print one line.  When the
    answer is 200 with a Content-Length (digits, as HTTP writes it, up to
    300 of them), it returns success and the line it prints reports the
    number of bytes the header gives; so it does for every header that
    [int()] reads as an integer whose quotient by 1024*1024 is in the
    range of a float.
    It returns failure when the request raises, as it does on a timeout,
    and when the status is not 200. *)
Theorem C6_verify_model_download env s :
  (∃ ok line,
      verify_model_download env s = (Ok ok, logged s [EHead model_url 10; line])
      ∧ is_network line = false
      ∧ WHISPER_MODEL_URL = model_url)
  ∧ (∀ r header,
       http_head env model_url = HeadResponds r →
       status r = 200 →
       content_length r = Some header →
       is_content_length header = true →
       verify_model_download env s
         = (Ok true, logged s [EHead model_url 10; EPrintSize (decimal_value header)]))
  ∧ (∀ r header size,
       http_head env model_url = HeadResponds r →
       status r = 200 →
       content_length r = Some header →
       PyInt.of_str header = inr size →
       PyInt.megabytes_overflow size = false →
       verify_model_download env s
         = (Ok true, logged s [EHead model_url 10; EPrintSize size]))
  ∧ (∀ cls msg,
       http_head env model_url = HeadRaises cls msg →
       verify_model_download env s
         = (Ok false,
            logged s [EHead model_url 10;
                      EPrint ("Error verifying model URL: " +:+ msg)]))
  ∧ (∀ r,
       http_head env model_url = HeadResponds r →
       status r ≠ 200 →
       verify_model_download env s
         = (Ok false,
            logged s [EHead model_url 10;
                      EPrint ("Model URL returned status code: " +:+ pretty (status r))])).
Proof.
  rewrite verify_model_download_eq.
  assert (∀ r header size,
            http_head env model_url = HeadResponds r →
            status r = 200 →
            content_length r = Some header →
            PyInt.of_str header = inr size →
            PyInt.megabytes_overflow size = false →
            verify_verdict (http_head env model_url) = (true, EPrintSize size))
    as Hsuccess.
  { intros r header size Hhead Hstatus Hlength Hint Hfits.
    rewrite Hhead. unfold verify_verdict.
    rewrite Hstatus, Hlength. simpl. by rewrite Hint, Hfits. }
  split; [|split; [|split; [|split]]].
  - eexists _, _. split; [reflexivity|]. split; [apply verify_verdict_prints|done].
  - intros r header Hhead Hstatus Hlength Hsyntax.
    destruct (of_str_content_length _ Hsyntax) as [Hint Hfits].
    by rewrite (Hsuccess _ _ _ Hhead Hstatus Hlength Hint Hfits).
  - intros r header size Hhead Hstatus Hlength Hint Hfits.
    by rewrite (Hsuccess _ _ _ Hhead Hstatus Hlength Hint Hfits).
  - intros cls msg Hhead. by rewrite Hhead.
  - intros r Hhead Hstatus. rewrite Hhead. unfold verify_verdict.
    by rewrite (proj2 (Z.eqb_neq _ _) Hstatus).
Qed.

(** The sample server answers 200 with [Content-Length: 77691713]. *)
Lemma C6_witness :
  verify_model_download stub_env first_use_state
  = (Ok true, logged first_use_state [EHead model_url 10; EPrintSize 77691713]).
Proof.
  apply (proj1 (proj2 (C6_verify_model_download stub_env first_use_state))
           {| status := 200; content_length := Some "77691713" |} "77691713");
    reflexivity.
Defined.

(** A timeout of the request. *)
Example verify_model_download_timeout s :
  let env := {| home := None;
                http_head := λ _, HeadRaises "URLError" "<urlopen error timed out>";
                http_get := λ _, GetOk;
                pip_install := λ _, PipOk ∅;
                whisper_load_model := λ _, None;
                whisper_transcribe := λ _, inr [] |} in
  (verify_model_download env s).1 = Ok false.
Proof. intros env. by rewrite verify_model_download_eq. Qed.

(** ** C7 *)

(** C7, as stated, fails: an unrecognized sub-command is rejected by
    argparse itself, which prints a usage error and exits with status 2;
    the help-and-exit-1 branch of [main] is not reached. *)
Lemma C7_unrecognized_input_exits_2 :
  script stub_env ["frobnicate"] first_use_state
  = (Raise (SystemExit 2),
     logged (booted stub_env first_use_state)
       [EUsageError "simple_whisper_solution.py" (InvalidChoice "frobnicate")])
  ∧ exit_status (script stub_env ["frobnicate"] first_use_state).1 = 2
  ∧ exit_status (script stub_env ["frobnicate"] first_use_state).1 ≠ 1
  ∧ EHelp "simple_whisper_solution.py"
      ∉ trace (script stub_env ["frobnicate"] first_use_state).2.
Proof.
  assert (script stub_env ["frobnicate"] first_use_state
          = (Raise (SystemExit 2),
             logged (booted stub_env first_use_state)
               [EUsageError "simple_whisper_solution.py" (InvalidChoice "frobnicate")]))
    as Hrun by (by vm_compute).
  rewrite Hrun. repeat split; [done|].
  assert (trace (logged (booted stub_env first_use_state)
                   [EUsageError "simple_whisper_solution.py" (InvalidChoice "frobnicate")])
          = [EMakedirs "/home/user/.fethr/models";
             EUsageError "simple_whisper_solution.py" (InvalidChoice "frobnicate")])
    as Htrace by (by vm_compute).
  simpl snd. rewrite Htrace, !elem_of_cons, elem_of_nil.
  intros [?|[?|[]]]; discriminate.
Qed.

(** C7, amended.  Without a sub-command [main] prints the help and exits
    with status 1.  A command line that the parser rejects never reaches
    that branch: the parser prints a usage error and the process exits
    with status 2.  In particular a first argument that is not an option
    and names no sub-command is such an invalid choice, whatever follows
    it. *)
Theorem C7_usage_exit_codes env s :
  main env [] s = (Raise (SystemExit 1), logged s [EHelp "simple_whisper_solution.py"])
  ∧ (∀ argv ns, parses_to argv ns → ns !! "command" = Some PNone →
       main env argv s
         = (Raise (SystemExit 1), logged s [EHelp "simple_whisper_solution.py"]))
  ∧ (∀ argv prog err,
       Argparse.parse_args subparsers parser argv = Argparse.PError prog err →
       main env argv s = (Raise (SystemExit 2), logged s [EUsageError prog err]))
  ∧ (∀ name rest,
       plain name = true → name ∉ ["download"; "transcribe"] →
       main env (name :: rest) s
         = (Raise (SystemExit 2),
            logged s [EUsageError "simple_whisper_solution.py" (InvalidChoice name)]))
  ∧ (∀ argv s0, booted env s0 = s → script env argv s0 = main env argv s).
Proof.
  split; [|split; [|split; [|split]]].
  - rewrite (main_parsed env [] _ s parse_args_nil). by apply dispatch_no_command.
  - intros argv ns Hparse Hcommand.
    rewrite (main_parsed _ _ _ _ Hparse). by apply dispatch_no_command.
  - intros argv prog err. apply main_rejected.
  - intros name rest Hplain Hname.
    apply main_rejected. by apply parse_args_invalid_choice.
  - intros argv s0 <-. apply script_eq.
Qed.

Lemma C7_witness :
  script stub_env [] first_use_state
  = (Raise (SystemExit 1),
     logged (booted stub_env first_use_state) [EHelp "simple_whisper_solution.py"])
  ∧ main stub_env ["transcribe"] first_use_state
    = (Raise (SystemExit 2),
       logged first_use_state
         [EUsageError "simple_whisper_solution.py transcribe"
            (MissingRequired ["audio_path"])]).
Proof.
  destruct (C7_usage_exit_codes stub_env (booted stub_env first_use_state))
    as (Hnone & _ & _ & _ & Hscript).
  destruct (C7_usage_exit_codes stub_env first_use_state)
    as (_ & _ & Hrejected & _ & _).
  split.
  - rewrite (Hscript [] first_use_state eq_refl). exact Hnone.
  - apply Hrejected. by vm_compute.
Defined.

(** ** C8 *)

(** The namespace of [download] with any placement of the two flags. *)
Lemma parses_download_flags (verify : bool) :
  let flags := if verify then ["--verify"] else [] in
  parses_to ("download" :: flags) (download_namespace false verify)
  ∧ parses_to ("download" :: "--verbose" :: flags) (download_namespace true verify)
  ∧ parses_to ("download" :: flags ++ ["--verbose"]) (download_namespace true verify).
Proof. destruct verify; repeat split; by vm_compute. Qed.

(** [dispatch] reads [command] and [verify], never [verbose]. *)
Lemma dispatch_ignores_verbose env ns s (verbose : pyval) :
  ns !! "command" = Some (PStr "download") →
  dispatch env (<["verbose" := verbose]> ns) s = dispatch env ns s.
Proof.
  intros Hcommand.
  rewrite !dispatch_download; [|done|by rewrite lookup_insert_ne].
  unfold wants_verify. by rewrite lookup_insert_ne.
Qed.

(** C8. Two runs of the [download] command that differ only in
    [--verbose] are the same run: same result, same exit status, same
    events, same final state, from every starting state and in every
    environment, with or without [--verify] and wherever the flag
    stands. *)
Theorem C8_verbose_changes_nothing env s0 (verify : bool) :
  let flags := if verify then ["--verify"] else [] in
  script env ("download" :: "--verbose" :: flags) s0 = script env ("download" :: flags) s0
  ∧ script env ("download" :: flags ++ ["--verbose"]) s0
    = script env ("download" :: flags) s0
  ∧ exit_status (script env ("download" :: "--verbose" :: flags) s0).1
    = exit_status (script env ("download" :: flags) s0).1
  ∧ (∀ ns s verbose,
       ns !! "command" = Some (PStr "download") →
       dispatch env (<["verbose" := verbose]> ns) s = dispatch env ns s).
Proof.
  intros flags.
  destruct (parses_download_flags verify) as (Hplain & Hfirst & Hlast).
  fold flags in Hplain, Hfirst, Hlast.
  assert (∀ s verbose,
            dispatch env (download_namespace verbose verify) s
            = dispatch env (download_namespace false verify) s) as Hsame.
  { intros s verbose. rewrite !dispatch_download by done. reflexivity. }
  rewrite !script_eq.
  rewrite (main_parsed _ _ _ _ Hplain), (main_parsed _ _ _ _ Hfirst),
    (main_parsed _ _ _ _ Hlast).
  rewrite !Hsame. repeat split.
  intros ns s verbose Hcommand. by apply dispatch_ignores_verbose.
Qed.

(** ** C9 *)



(** ** C10 *)

Definition int_of_none_message : string :=
  "int() argument must be a string, a bytes-like object or a real number, not 'NoneType'".

(** C10. A 200 answer to the HEAD request that carries no Content-Length
    makes [verify_model_download] return failure: [int(None)] raises, and
    the handler prints the error and returns [False]. *)
Theorem C10_no_content_length_fails env s r :
  http_head env model_url = HeadResponds r →
  status r = 200 →
  content_length r = None →
  verify_model_download env s
    = (Ok false,
       logged s [EHead model_url 10;
                 EPrint ("Error verifying model URL: " +:+ int_of_none_message)])
  ∧ PyInt.of_header (content_length r) = inl (PyExc "TypeError" int_of_none_message).
Proof.
  intros Hhead Hstatus Hlength.
  rewrite verify_model_download_eq, Hhead. unfold verify_verdict.
  rewrite Hstatus, Hlength. by split.
Qed.

Lemma C10_witness :
  http_head chunked_env model_url
    = HeadResponds {| status := 200; content_length := None |}
  ∧ (verify_model_download chunked_env first_use_state).1 = Ok false.
Proof.
  split; [reflexivity|].
  by rewrite (proj1 (C10_no_content_length_fails chunked_env first_use_state _
                       eq_refl eq_refl eq_refl)).
Defined.

(** * Further properties of the code *)

(** ** What a run adds to the trace *)

(** The events of [s'] that are not yet in [s]. *)
Definition since (s s' : State) : list event :=
  drop (List.length (trace s)) (trace s').

(** The requests the script sends itself, through urllib, among some
    events, in order.  What pip and the whisper library fetch on their
    own is behind [EPip], [ELoadModel] and [ETranscribe]. *)
Definition requests (evs : list event) : list event := List.filter is_network evs.

Lemma since_app s s' evs : trace s' = trace s ++ evs → since s s' = evs.
Proof. intros H. unfold since. rewrite H. apply drop_app_length. Qed.

Lemma since_refl s : since s s = [].
Proof. apply since_app. by rewrite app_nil_r. Qed.

Lemma since_logged s evs : since s (logged s evs) = evs.
Proof. by apply since_app. Qed.

Lemma requests_app evs1 evs2 : requests (evs1 ++ evs2) = requests evs1 ++ requests evs2.
Proof. apply List.filter_app. Qed.

(** Every event a statement adds satisfies [P]. *)
Definition emits {A} (P : event → bool) (m : M A) : Prop :=
  ∀ s r s', m s = (r, s') →
    ∃ evs, trace s' = trace s ++ evs ∧ Forall (λ ev, P ev = true) evs.

Lemma emits_silent {A} P (m : M A) :
  (∀ s r s', m s = (r, s') → trace s' = trace s) → emits P m.
Proof.
  intros H s r s' Hm. exists []. rewrite app_nil_r. split; [by eapply H|constructor].
Qed.

Lemma emits_ret {A} P (a : A) : emits P (mret a).
Proof. apply emits_silent. by intros s r s' [= <- <-]. Qed.

Lemma emits_raise {A} P e : emits P (@raise A e).
Proof. apply emits_silent. by intros s r s' [= <- <-]. Qed.

Lemma emits_sys_exit {A} P c : emits P (@sys_exit A c).
Proof. apply emits_raise. Qed.

Lemma emits_lift {A} P (x : exn + A) : emits P (lift x).
Proof. destruct x; [apply emits_raise|apply emits_ret]. Qed.

Lemma emits_emit P ev : P ev = true → emits P (emit ev).
Proof.
  intros HP s r s' [= <- <-]. exists [ev]. split; [done|by repeat constructor].
Qed.

Lemma emits_add_path P p : emits P (add_path p).
Proof. apply emits_silent. by intros s r s' [= <- <-]. Qed.

Lemma emits_add_modules P ms : emits P (add_modules ms).
Proof. apply emits_silent. by intros s r s' [= <- <-]. Qed.

Lemma emits_os_path_exists P p : emits P (os_path_exists p).
Proof. apply emits_silent. by intros s r s' [= <- <-]. Qed.

Lemma emits_import P name : emits P (import_ name).
Proof.
  apply emits_silent. intros s r s'. unfold import_.
  by destruct (bool_decide _); intros [= <- <-].
Qed.

Lemma emits_bind {A B} P (m : M A) (f : A → M B) :
  emits P m → (∀ a, emits P (f a)) → emits P (m ≫= f).
Proof.
  intros Hm Hf s r s'. unfold mbind, M_bind.
  destruct (m s) as [[a|e] s1] eqn:E.
  - intros Hr. destruct (Hm _ _ _ E) as (evs1 & Ht1 & H1).
    destruct (Hf _ _ _ _ Hr) as (evs2 & Ht2 & H2).
    exists (evs1 ++ evs2). split; [by rewrite Ht2, Ht1, app_assoc|by apply Forall_app].
  - intros [= <- <-]. by eapply Hm.
Qed.

Lemma emits_fmap {A B} P (g : A → B) (m : M A) : emits P m → emits P (g <$> m).
Proof.
  intros Hm s r s'. unfold fmap, M_fmap.
  destruct (m s) as [[a|e] s1] eqn:E; intros [= <- <-]; by eapply Hm.
Qed.

Lemma emits_try_except {A} P catches (body : M A) handler :
  emits P body → (∀ e, emits P (handler e)) → emits P (try_except catches body handler).
Proof.
  intros Hb Hh s r s'. unfold try_except.
  destruct (body s) as [[a|e] s1] eqn:E.
  - intros [= <- <-]. by eapply Hb.
  - destruct (catches e).
    + intros Hr. destruct (Hb _ _ _ E) as (evs1 & Ht1 & H1).
      destruct (Hh _ _ _ _ Hr) as (evs2 & Ht2 & H2).
      exists (evs1 ++ evs2). split; [by rewrite Ht2, Ht1, app_assoc|by apply Forall_app].
    + intros [= <- <-]. by eapply Hb.
Qed.

Lemma emits_try_finally {A} P (body : M A) cleanup :
  emits P body → emits P cleanup → emits P (try_finally body cleanup).
Proof.
  intros Hb Hc s r s'. unfold try_finally.
  destruct (body s) as [[a|e] s1] eqn:E; intros Hr;
    destruct (Hb _ _ _ E) as (evs1 & Ht1 & H1).
  - assert (emits P (cleanup;; mret a)) as Hk
      by (apply emits_bind; [done|intros; apply emits_ret]).
    destruct (Hk _ _ _ Hr) as (evs2 & Ht2 & H2).
    exists (evs1 ++ evs2). split; [by rewrite Ht2, Ht1, app_assoc|by apply Forall_app].
  - assert (emits P (cleanup;; @raise A e)) as Hk
      by (apply emits_bind; [done|intros; apply emits_raise]).
    destruct (Hk _ _ _ Hr) as (evs2 & Ht2 & H2).
    exists (evs1 ++ evs2). split; [by rewrite Ht2, Ht1, app_assoc|by apply Forall_app].
Qed.

(** Decompose a statement into its parts. *)
Ltac emits_step :=
  match goal with
  | |- emits _ (_ ≫= _) => apply emits_bind; [|intros ?]
  | |- emits _ (_ <$> _) => apply emits_fmap
  | |- emits _ (try_except _ _ _) => apply emits_try_except; [|intros ?]
  | |- emits _ (try_finally _ _) => apply emits_try_finally
  | |- emits _ (with_ _ _ _) => unfold with_
  | |- emits _ (os_makedirs _) => unfold os_makedirs
  | |- emits _ (print _) => unfold print
  | |- emits _ (emit _) => apply emits_emit; reflexivity
  | |- emits _ (mret _) => apply emits_ret
  | |- emits _ (raise _) => apply emits_raise
  | |- emits _ (sys_exit _) => apply emits_sys_exit
  | |- emits _ (lift _) => apply emits_lift
  | |- emits _ (add_path _) => apply emits_add_path
  | |- emits _ (add_modules _) => apply emits_add_modules
  | |- emits _ (os_path_exists _) => apply emits_os_path_exists
  | |- emits _ (import_ _) => apply emits_import
  | |- emits _ (if ?b then _ else _) => destruct b
  | |- emits _ (match ?x with _ => _ end) => destruct x
  | |- emits _ (let '(_, _) := ?x in _) => destruct x
  end.

Ltac emits_auto := repeat emits_step.

(** Events that are no request of the script. *)
Definition offline (ev : event) : bool := negb (is_network ev).

Lemma requests_offline evs : Forall (λ ev, offline ev = true) evs → requests evs = [].
Proof.
  induction 1 as [|ev evs Hev _ IH]; [done|].
  unfold requests in *. simpl. unfold offline in Hev.
  destruct (is_network ev); [done|exact IH].
Qed.

Section Quiet.

Variable env : Env.

Lemma install_whisper_offline : emits offline (install_whisper env).
Proof. unfold install_whisper, pip_check_call. emits_auto. Qed.

Lemma transcribe_block_offline audio_path :
  emits offline (transcribe_block env audio_path).
Proof.
  unfold transcribe_block, load_model, model_transcribe, dict_item. emits_auto.
Qed.

End Quiet.

(** ** More sample worlds *)

(** No network: both requests and every pip run fail. *)
Definition offline_env : Env := {|
  home := Some "/home/user";
  http_head := λ _, HeadRaises "URLError" "<urlopen error [Errno -2] Name or service not known>";
  http_get := λ _, GetRaises "URLError" "<urlopen error [Errno -2] Name or service not known>" false;
  pip_install := λ _, PipRaises "CalledProcessError" "Command returned non-zero exit status 1.";
  whisper_load_model := λ _, None;
  whisper_transcribe := λ _, inr [("text", PStr "hello")]
|}.

(** Whisper is installed but cannot load its model. *)
Definition bad_model_env : Env := {|
  home := Some "/home/user";
  http_head := λ _, HeadResponds {| status := 200; content_length := Some "77691713" |};
  http_get := λ _, GetOk;
  pip_install := λ _, PipOk {["whisper"]};
  whisper_load_model := λ _, Some ("RuntimeError", "checksum does not match");
  whisper_transcribe := λ _, inr [("text", PStr "hello")]
|}.

(** ** The dependency installer, lines 126-140 *)


(** ** The transcription invoker, lines 142-175 *)

Section Documents.

Variable env : Env.

(** Lines 148-150 when the transfer raises. *)
Lemma ensure_model_failed s cls msg partial :
  WHISPER_MODEL_PATH env ∉ fs s →
  http_get env model_url = GetRaises cls msg partial →
  ∃ s1, ensure_model env s = (Ok false, s1)
        ∧ modules s1 = modules s
        ∧ trace s1 = trace s ++ download_prologue env ++ failure_report msg.
Proof.
  intros Hnotin Hget. unfold ensure_model. run_M.
  rewrite bool_decide_eq_false_2 by done. run_M.
  rewrite (download_model_fresh env s Hnotin), Hget. by eexists.
Qed.

End Documents.

(** X2. When the audio file exists, the model file does not, and the
    transfer raises, [transcribe_audio] returns the document
    [{"error": "Failed to download Whisper model"}] right after the failed
    download: pip is not run and whisper is neither imported nor called.
    The [transcribe] command prints that document and exits with status
    0. *)
Theorem X2_failed_download_document env audio_path s cls msg partial :
  audio_path ∈ fs s →
  WHISPER_MODEL_PATH env ∉ fs s →
  http_get env model_url = GetRaises cls msg partial →
  ∃ s',
    transcribe_audio env audio_path s
      = (Ok (PDict [("error", PStr "Failed to download Whisper model")]), s')
    ∧ since s s' = download_prologue env ++ failure_report msg
    ∧ modules s' = modules s
    ∧ (∀ ns, ns !! "command" = Some (PStr "transcribe") →
             ns !! "audio_path" = Some (PStr audio_path) →
             dispatch env ns s
               = (Raise (SystemExit 0),
                  logged s' [EPrintJson
                               (PDict [("error", PStr "Failed to download Whisper model")])])).
Proof.
  intros Haudio Hnotin Hget.
  destruct (ensure_model_failed env s _ _ _ Hnotin Hget) as (s1 & Hs1 & Hmods & Htrace).
  assert (transcribe_audio env audio_path s
          = (Ok (error_document "Failed to download Whisper model"), s1)) as Hrun.
  { rewrite transcribe_audio_stages, bool_decide_eq_true_2 by done. by rewrite Hs1. }
  exists s1. split; [exact Hrun|]. split; [by apply since_app|]. split; [exact Hmods|].
  intros ns Hcommand Hpath.
  rewrite (dispatch_transcribe _ _ _ _ Hcommand Hpath). by rewrite Hrun.
Qed.

Lemma X2_witness :
  "/home/user/sample.wav" ∈ fs first_use_state
  ∧ ∃ s', transcribe_audio offline_env "/home/user/sample.wav" first_use_state
          = (Ok (PDict [("error", PStr "Failed to download Whisper model")]), s')
          ∧ since first_use_state s'
            = download_prologue offline_env
              ++ failure_report "<urlopen error [Errno -2] Name or service not known>".
Proof.
  assert ("/home/user/sample.wav" ∈ fs first_use_state) as Haudio.
  { apply (bool_decide_unpack _). by vm_compute. }
  assert (WHISPER_MODEL_PATH offline_env ∉ fs first_use_state) as Hnotin.
  { apply (bool_decide_unpack _). by vm_compute. }
  split; [exact Haudio|].
  destruct (X2_failed_download_document offline_env _ first_use_state _ _ _
              Haudio Hnotin eq_refl) as (s' & Hrun & Hsince & _).
  by exists s'.
Defined.

(** Calls into the whisper library. *)
Definition uses_whisper (ev : event) : bool :=
  match ev with
  | ELoadModel _ | ETranscribe _ => true
  | _ => false
  end.

Definition before_whisper (ev : event) : bool := negb (uses_whisper ev).

Section Stages.

Variable env : Env.

Lemma download_model_before_whisper : emits before_whisper (download_model env).
Proof. unfold download_model, urlretrieve. emits_auto. Qed.

Lemma ensure_model_before_whisper : emits before_whisper (ensure_model env).
Proof.
  unfold ensure_model. emits_auto. apply download_model_before_whisper.
Qed.

Lemma install_whisper_before_whisper : emits before_whisper (install_whisper env).
Proof. unfold install_whisper, pip_check_call. emits_auto. Qed.

(** With the audio file, the model and the package in reach, what is left
    of [transcribe_audio] is its [try] block. *)
Lemma transcribe_audio_ready audio_path s :
  audio_path ∈ fs s → model_ready env s → whisper_ready env s →
  ∃ s2, transcribe_audio env audio_path s = transcribe_block env audio_path s2.
Proof.
  intros Haudio Hmodel Hwhisper.
  destruct (ensure_model_ready env s Hmodel) as (s1 & Hs1 & Hmods).
  assert (whisper_ready env s1) as Hwhisper1 by (unfold whisper_ready; by rewrite Hmods).
  destruct (install_whisper_ready env s1 Hwhisper1) as (s2 & Hs2 & Himport).
  exists s2. rewrite transcribe_audio_stages.
  rewrite bool_decide_eq_true_2 by done. rewrite Hs1, Hs2.
  by rewrite bool_decide_eq_true_2.
Qed.


End Stages.

(** X3. When the audio file exists and the model is in reach, but whisper
    cannot be imported and the pip run raises, [transcribe_audio] returns
    the document [{"error": "Failed to install Whisper package"}] after
    the three events of the failed installation; the whisper library is
    never called. *)
Theorem X3_failed_install_document env audio_path s cls msg :
  audio_path ∈ fs s →
  model_ready env s →
  "whisper" ∉ modules s →
  pip_install env "openai-whisper" = PipRaises cls msg →
  ∃ s1 s',
    ensure_model env s = (Ok true, s1)
    ∧ transcribe_audio env audio_path s
      = (Ok (PDict [("error", PStr "Failed to install Whisper package")]), s')
    ∧ s' = logged s1 [EPrint "Installing whisper package...";
                      EPip "openai-whisper";
                      EPrint ("Error installing whisper package: " +:+ msg)]
    ∧ Forall (λ ev, uses_whisper ev = false) (since s s').
Proof.
  intros Haudio Hmodel Hmissing Hpip.
  destruct (ensure_model_ready env s Hmodel) as (s1 & Hs1 & Hmods).
  destruct (ensure_model_before_whisper env _ _ _ Hs1) as (evs1 & Htrace1 & Hevs1).
  eexists s1, _. split; [exact Hs1|].
  rewrite transcribe_audio_stages, bool_decide_eq_true_2 by done.
  rewrite Hs1, install_whisper_eq, Hmods, bool_decide_eq_false_2, Hpip by done.
  split; [reflexivity|]. split; [reflexivity|].
  rewrite (since_app s _ (evs1 ++ _)) by (simpl; rewrite Htrace1, <- app_assoc; reflexivity).
  apply Forall_app. split.
  - eapply Forall_impl; [exact Hevs1|]. intros ev. unfold before_whisper.
    by destruct (uses_whisper ev).
  - by repeat constructor.
Qed.

Lemma X3_witness :
  "/home/user/sample.wav" ∈ fs model_present_state
  ∧ transcribe_audio offline_env "/home/user/sample.wav" model_present_state
    = (Ok (PDict [("error", PStr "Failed to install Whisper package")]),
       logged model_present_state
         [EPrint "Installing whisper package...";
          EPip "openai-whisper";
          EPrint "Error installing whisper package: Command returned non-zero exit status 1."]).
Proof.
  assert ("/home/user/sample.wav" ∈ fs model_present_state) as Haudio.
  { apply (bool_decide_unpack _). by vm_compute. }
  assert (model_ready offline_env model_present_state) as Hmodel.
  { left. apply (bool_decide_unpack _). by vm_compute. }
  assert ("whisper" ∉ modules model_present_state) as Hmissing.
  { apply (bool_decide_unpack _). by vm_compute. }
  split; [exact Haudio|].
  destruct (X3_failed_install_document offline_env _ model_present_state _ _
              Haudio Hmodel Hmissing eq_refl) as (s1 & s' & Hs1 & Hrun & -> & _).
  rewrite Hrun. do 2 f_equal.
  assert (ensure_model offline_env model_present_state = (Ok true, model_present_state))
    as Hs1' by (by vm_compute).
  rewrite Hs1' in Hs1. by injection Hs1 as <-.
Defined.

(** X4. Everything that fails inside the [try] block of lines 159-175
    becomes a document [{"error": "Transcription error: <message>"}]
    that [transcribe_audio] returns: a model that does not load (the
    audio is then never passed to the library), a transcription that
    raises, a result without a ["text"] entry (the message of the
    [KeyError] is the quoted key), and a result that JSON cannot hold (the
    message of the encoder's [TypeError]). *)
Theorem X4_transcription_errors env audio_path s :
  audio_path ∈ fs s →
  model_ready env s →
  whisper_ready env s →
  ∃ s2,
    let loading := [EPrint "Loading Whisper model: tiny"; ELoadModel "tiny"] in
    let calling :=
      loading ++ [EPrint ("Transcribing audio: " +:+ audio_path); ETranscribe audio_path] in
    let fails message evs :=
      transcribe_audio env audio_path s
      = (Ok (PDict [("error", PStr ("Transcription error: " +:+ message))]),
         logged s2 evs) in
    (∀ cls msg,
       whisper_load_model env "tiny" = Some (cls, msg) → fails msg loading)
    ∧ (∀ cls msg,
         whisper_load_model env "tiny" = None →
         whisper_transcribe env audio_path = inl (cls, msg) → fails msg calling)
    ∧ (∀ result,
         whisper_load_model env "tiny" = None →
         whisper_transcribe env audio_path = inr result →
         dict_lookup "text" result = None → fails "'text'" calling)
    ∧ (∀ result text type_name,
         whisper_load_model env "tiny" = None →
         whisper_transcribe env audio_path = inr result →
         dict_lookup "text" result = Some text →
         json_reject (PDict [("text", text);
                             ("language", dict_get "language" (PStr "en") result);
                             ("segments", dict_get "segments" (PList []) result)])
           = Some type_name →
         fails ("Object of type " +:+ type_name +:+ " is not JSON serializable") calling).
Proof.
  intros Haudio Hmodel Hwhisper.
  destruct (transcribe_audio_ready env _ _ Haudio Hmodel Hwhisper) as (s2 & ->).
  exists s2. cbv zeta.
  unfold transcribe_block, load_model, model_transcribe, dict_item, logged.
  change MODEL_SIZE with "tiny".
  repeat split.
  - intros cls msg Hload. run_M. rewrite Hload. run_M. norm_trace. reflexivity.
  - intros cls msg Hload Hcall. run_M. rewrite Hload. run_M. rewrite Hcall. run_M.
    norm_trace. reflexivity.
  - intros result Hload Hcall Htext. run_M. rewrite Hload. run_M. rewrite Hcall. run_M.
    rewrite Htext. run_M. norm_trace. reflexivity.
  - intros result text type_name Hload Hcall Htext Hjson. run_M.
    rewrite Hload. run_M. rewrite Hcall. run_M. rewrite Htext. run_M.
    unfold json_dumps. rewrite Hjson. run_M. norm_trace. reflexivity.
Qed.

Lemma X4_witness :
  whisper_load_model bad_model_env "tiny" = Some ("RuntimeError", "checksum does not match")
  ∧ ∃ s', transcribe_audio bad_model_env "/home/user/sample.wav" first_use_state
          = (Ok (PDict [("error", PStr "Transcription error: checksum does not match")]), s').
Proof.
  split; [reflexivity|].
  assert ("/home/user/sample.wav" ∈ fs first_use_state) as Haudio.
  { apply (bool_decide_unpack _). by vm_compute. }
  assert (model_ready bad_model_env first_use_state) as Hmodel by (by right).
  assert (whisper_ready bad_model_env first_use_state) as Hwhisper.
  { right. exists {["whisper"]}. split; [reflexivity|]. by apply elem_of_singleton. }
  destruct (X4_transcription_errors bad_model_env _ first_use_state
              Haudio Hmodel Hwhisper) as (s2 & Hload & _).
  eexists. exact (Hload _ _ eq_refl).
Defined.


(** ** Network requests *)

Section Requests.

Variable env : Env.

Lemma requests_download_prologue :
  requests (download_prologue env) = [EGet model_url (WHISPER_MODEL_PATH env)].
Proof. reflexivity. Qed.

Lemma requests_failure_report msg : requests (failure_report msg) = [].
Proof.
  unfold failure_report, moved_or_renamed.
  by destruct (Str.contains "HTTP Error 404" msg).
Qed.

(** What [download_model] adds to the trace. *)
Lemma download_model_since s :
  since s (download_model env s).2 =
    if bool_decide (WHISPER_MODEL_PATH env ∈ fs s)
    then [EPrint ("Model already exists at: " +:+ WHISPER_MODEL_PATH env)]
    else download_prologue env
         ++ match http_get env model_url with
            | GetOk => [EPrint ("Model downloaded to: " +:+ WHISPER_MODEL_PATH env)]
            | GetRaises _ msg _ => failure_report msg
            end.
Proof.
  destruct (bool_decide (WHISPER_MODEL_PATH env ∈ fs s)) eqn:Hin.
  - apply bool_decide_eq_true_1 in Hin.
    rewrite download_model_cached by done. apply since_logged.
  - apply bool_decide_eq_false_1 in Hin.
    rewrite download_model_fresh by done.
    destruct (http_get env model_url); by apply since_app.
Qed.

Lemma download_model_requests s :
  requests (since s (download_model env s).2) =
    if bool_decide (WHISPER_MODEL_PATH env ∈ fs s) then []
    else [EGet model_url (WHISPER_MODEL_PATH env)].
Proof.
  rewrite download_model_since.
  destruct (bool_decide (WHISPER_MODEL_PATH env ∈ fs s)); [reflexivity|].
  rewrite requests_app, requests_download_prologue.
  destruct (http_get env model_url); [reflexivity|].
  by rewrite requests_failure_report.
Qed.

Lemma ensure_model_eq s :
  ensure_model env s =
    if bool_decide (WHISPER_MODEL_PATH env ∈ fs s) then (Ok true, s)
    else download_model env s.
Proof.
  unfold ensure_model. run_M.
  by destruct (bool_decide (WHISPER_MODEL_PATH env ∈ fs s)).
Qed.

Lemma ensure_model_requests s :
  requests (since s (ensure_model env s).2) =
    if bool_decide (WHISPER_MODEL_PATH env ∈ fs s) then []
    else [EGet model_url (WHISPER_MODEL_PATH env)].
Proof.
  rewrite ensure_model_eq.
  pose proof (download_model_requests s) as Hdl.
  destruct (bool_decide (WHISPER_MODEL_PATH env ∈ fs s)); [|exact Hdl].
  simpl. by rewrite since_refl.
Qed.

(** The events of a statement that runs after [s1], seen from [s]. *)
Lemma since_trans s s1 s2 :
  trace s `prefix_of` trace s1 → trace s1 `prefix_of` trace s2 →
  since s s2 = since s s1 ++ since s1 s2.
Proof.
  intros [evs1 H1] [evs2 H2].
  rewrite (since_app s s1 evs1 H1), (since_app s1 s2 evs2 H2).
  apply since_app. by rewrite H2, H1, app_assoc.
Qed.

Lemma emits_prefix {A} P (m : M A) s r s' :
  emits P m → m s = (r, s') → trace s `prefix_of` trace s'.
Proof. intros Hm Hr. destruct (Hm _ _ _ Hr) as (evs & -> & _). by exists evs. Qed.

Lemma emits_requests {A} (m : M A) s r s' :
  emits offline m → m s = (r, s') → requests (since s s') = [].
Proof.
  intros Hm Hr. destruct (Hm _ _ _ Hr) as (evs & Ht & Hevs).
  rewrite (since_app _ _ _ Ht). by apply requests_offline.
Qed.

(** The requests of [transcribe_audio] are those of its download. *)
Lemma transcribe_audio_requests audio_path s :
  requests (since s (transcribe_audio env audio_path s).2) =
    if bool_decide (audio_path ∈ fs s) && negb (bool_decide (WHISPER_MODEL_PATH env ∈ fs s))
    then [EGet model_url (WHISPER_MODEL_PATH env)]
    else [].
Proof.
  rewrite transcribe_audio_stages.
  destruct (bool_decide (audio_path ∈ fs s)); simpl; [|by rewrite since_refl].
  pose proof (ensure_model_requests s) as Hmodel.
  destruct (ensure_model env s) as [[ok|e] s1] eqn:Hs1; simpl in Hmodel.
  2: { destruct (ensure_model_returns env s) as (ok & s1' & Hok). congruence. }
  assert (trace s `prefix_of` trace s1) as Hpre1
    by exact (emits_prefix _ _ _ _ _ (ensure_model_before_whisper env) Hs1).
  assert (requests (since s s1)
          = if negb (bool_decide (WHISPER_MODEL_PATH env ∈ fs s))
            then [EGet model_url (WHISPER_MODEL_PATH env)] else []) as Hmodel'.
  { rewrite Hmodel. by destruct (bool_decide _). }
  destruct ok; [|exact Hmodel'].
  destruct (install_whisper env s1) as [[installed|e] s2] eqn:Hs2.
  2: { destruct (install_whisper_returns env s1) as (ok & s2' & Hok). congruence. }
  pose proof (emits_requests _ _ _ _ (install_whisper_offline env) Hs2) as Hinstall.
  pose proof (emits_prefix _ _ _ _ _ (install_whisper_offline env) Hs2) as Hpre2.
  assert (requests (since s s2)
          = if negb (bool_decide (WHISPER_MODEL_PATH env ∈ fs s))
            then [EGet model_url (WHISPER_MODEL_PATH env)] else []) as Hboth.
  { rewrite (since_trans s s1 s2 Hpre1 Hpre2), requests_app, Hmodel', Hinstall.
    apply app_nil_r. }
  destruct installed; [|exact Hboth].
  destruct (bool_decide ("whisper" ∈ modules s2)); [|exact Hboth].
  destruct (transcribe_block env audio_path s2) as [r s3] eqn:Hs3.
  pose proof (emits_requests _ _ _ _ (transcribe_block_offline env audio_path) Hs3)
    as Hblock.
  pose proof (emits_prefix _ _ _ _ _ (transcribe_block_offline env audio_path) Hs3)
    as Hpre3.
  simpl.
  rewrite (since_trans s s2 s3 (transitivity Hpre1 Hpre2) Hpre3), requests_app,
    Hboth, Hblock.
  apply app_nil_r.
Qed.

End Requests.

(** X6. The only request [transcribe_audio] ever sends itself is the
    download of the model, and it sends it exactly when the audio file
    exists and the model file does not: one GET of the model URL into the
    model path.  It never sends the HEAD request of the verification, and
    with the model on disk it sends nothing. *)
Theorem X6_transcribe_audio_requests env audio_path s :
  requests (since s (transcribe_audio env audio_path s).2) =
    if bool_decide (audio_path ∈ fs s ∧ WHISPER_MODEL_PATH env ∉ fs s)
    then [EGet "https://huggingface.co/ggerganov/whisper.cpp/resolve/main/ggml-tiny.en.bin"
               (WHISPER_MODEL_PATH env)]
    else [].
Proof.
  rewrite transcribe_audio_requests.
  destruct (decide (audio_path ∈ fs s)) as [Ha|Ha],
           (decide (WHISPER_MODEL_PATH env ∈ fs s)) as [Hm|Hm].
  - rewrite (bool_decide_eq_true_2 _ Ha), (bool_decide_eq_true_2 _ Hm).
    by rewrite (bool_decide_eq_false_2 (_ ∧ _)) by tauto.
  - rewrite (bool_decide_eq_true_2 _ Ha), (bool_decide_eq_false_2 _ Hm).
    by rewrite (bool_decide_eq_true_2 (_ ∧ _)) by tauto.
  - rewrite (bool_decide_eq_false_2 _ Ha).
    by rewrite (bool_decide_eq_false_2 (_ ∧ _)) by tauto.
  - rewrite (bool_decide_eq_false_2 _ Ha).
    by rewrite (bool_decide_eq_false_2 (_ ∧ _)) by tauto.
Qed.

(** ** The model fetcher, lines 73-104 *)

(** X7. [download_model] never raises.  It answers [True] exactly when
    the model file was there or the transfer succeeded, and then the model
    file exists afterwards.  It leaves the importable modules alone, never
    removes a path, and makes no request when the file is there and
    exactly one, the GET of the model URL, when it is not.  The progress
    bar is opened for every transfer and closed again also when the
    transfer raises. *)
Theorem X7_download_model_outcome env s :
  ∃ ok s',
    download_model env s = (Ok ok, s')
    ∧ (ok = true ↔ WHISPER_MODEL_PATH env ∈ fs s ∨ http_get env model_url = GetOk)
    ∧ (ok = true → WHISPER_MODEL_PATH env ∈ fs s')
    ∧ modules s' = modules s
    ∧ fs s ⊆ fs s'
    ∧ requests (since s s')
      = (if bool_decide (WHISPER_MODEL_PATH env ∈ fs s) then []
         else [EGet model_url (WHISPER_MODEL_PATH env)])
    ∧ (WHISPER_MODEL_PATH env ∉ fs s →
       ∃ report, since s s'
                 = [EPrint "Downloading Whisper model (tiny.en) from Hugging Face...";
                    EMakedirs (os_path_dirname (WHISPER_MODEL_PATH env));
                    EPrint ("Downloading from: " +:+ model_url);
                    EPrint ("Saving to: " +:+ WHISPER_MODEL_PATH env);
                    EBarOpen;
                    EGet model_url (WHISPER_MODEL_PATH env);
                    EBarClose] ++ report
                 ∧ Forall (λ ev, ∃ line, ev = EPrint line) report).
Proof.
  pose proof (download_model_requests env s) as Hreq.
  pose proof (download_model_since env s) as Hsince.
  destruct (decide (WHISPER_MODEL_PATH env ∈ fs s)) as [Hin|Hnotin].
  - rewrite (download_model_cached env s Hin) in *.
    eexists _, _. split; [reflexivity|]. repeat split; auto; try done.
  - rewrite (download_model_fresh env s Hnotin) in *.
    rewrite (bool_decide_eq_false_2 _ Hnotin) in Hsince.
    destruct (http_get env model_url) as [|cls msg partial].
    + eexists _, _. split; [reflexivity|]. repeat split; auto; try done.
      * simpl. set_solver.
      * simpl. set_solver.
      * intros _. eexists. split; [exact Hsince|]. repeat constructor. by eexists.
    + eexists _, _. split; [reflexivity|]. repeat split; try done.
      * intros [?|[=]]; done.
      * simpl. set_solver.
      * intros _. eexists. split; [exact Hsince|].
        unfold failure_report, moved_or_renamed.
        destruct (Str.contains "HTTP Error 404" msg); repeat constructor; by eexists.
Qed.

(** ** The dispatcher, lines 177-206 *)

Lemma eq_str_true v t : eq_str v t = true → v = PStr t.
Proof.
  destruct v; try discriminate. simpl. intros H. by apply String.eqb_eq in H as ->.
Qed.

Lemma parse_args_extras sub p args ns extras :
  Argparse.parse_args sub p args = Argparse.PDone ns extras → extras = [].
Proof.
  unfold Argparse.parse_args.
  destruct (Argparse.parse_known_args sub p args) as [ns' [|x extras']| |];
    by intros [= _ <-].
Qed.

Definition attribute_error (name : string) : exn :=
  PyExc "AttributeError" ("'Namespace' object has no attribute " +:+ Str.repr name).

Definition not_a_path : exn :=
  PyExc "TypeError" "stat: path should be string, bytes, os.PathLike or integer".

Section Branches.

Variable env : Env.

(** [main] is the parser, then the dispatch. *)
Lemma main_cases argv s :
  main env argv s =
    match Argparse.parse_args subparsers parser argv with
    | Argparse.PDone ns _ => dispatch env ns s
    | Argparse.PHelp prog => (Raise (SystemExit 0), logged s [EHelp prog])
    | Argparse.PError prog err => (Raise (SystemExit 2), logged s [EUsageError prog err])
    end.
Proof.
  unfold main, parse_args.
  by destruct (Argparse.parse_args subparsers parser argv).
Qed.

(** The branches of lines 192-206, for any namespace. *)
Lemma dispatch_cases ns s :
  dispatch env ns s =
    match ns !! "command" with
    | None => (Raise (attribute_error "command"), s)
    | Some command =>
        if eq_str command "download" then
          if wants_verify ns then
            let v := verify_verdict (http_head env model_url) in
            let s1 := logged s [EHead model_url 10; v.2] in
            if v.1 then download_and_exit env s1
            else (Raise (SystemExit 1), logged s1 [abort_line])
          else download_and_exit env s
        else if eq_str command "transcribe" then
          match ns !! "audio_path" with
          | None => (Raise (attribute_error "audio_path"), s)
          | Some (PStr audio_path) =>
              match transcribe_audio env audio_path s with
              | (Ok doc, s1) => (Raise (SystemExit 0), logged s1 [EPrintJson doc])
              | (Raise e, s1) => (Raise e, s1)
              end
          | Some _ => (Raise not_a_path, s)
          end
        else (Raise (SystemExit 1), logged s [EHelp "simple_whisper_solution.py"])
    end.
Proof.
  destruct (ns !! "command") as [command|] eqn:Hc.
  2: { unfold dispatch, getattr. by rewrite Hc. }
  destruct (eq_str command "download") eqn:Hd.
  { apply eq_str_true in Hd. subst command. by apply dispatch_download. }
  destruct (eq_str command "transcribe") eqn:Ht.
  - apply eq_str_true in Ht. subst command.
    destruct (ns !! "audio_path") as [path|] eqn:Hp.
    + destruct path; unfold dispatch, getattr; rewrite Hc; run_M; by rewrite Hp.
    + unfold dispatch, getattr. rewrite Hc. run_M. by rewrite Hp.
  - unfold dispatch, getattr. rewrite Hc. run_M. by rewrite Hd, Ht.
Qed.



End Branches.


(** ** Requests of a whole run *)

Section RunRequests.

Variable env : Env.

(** The request of a download that starts in [s]. *)
Definition fetch (s : State) : list event :=
  if bool_decide (WHISPER_MODEL_PATH env ∈ fs s) then []
  else [EGet model_url (WHISPER_MODEL_PATH env)].

Lemma logged_nil s : logged s [] = s.
Proof. destruct s. unfold logged. simpl. by rewrite app_nil_r. Qed.

Lemma since_logged_after s s1 evs :
  trace s `prefix_of` trace s1 → since s (logged s1 evs) = since s s1 ++ evs.
Proof.
  intros Hpre. rewrite (since_trans s s1 (logged s1 evs) Hpre) by (by eexists).
  by rewrite since_logged.
Qed.

Lemma download_and_exit_requests s evs :
  requests (since s (download_and_exit env (logged s evs)).2) = requests evs ++ fetch s.
Proof.
  unfold download_and_exit.
  pose proof (download_model_requests env (logged s evs)) as Hreq.
  pose proof (grows_download_model env (logged s evs)) as Hgrows.
  destruct (download_model env (logged s evs)) as [[ok|e] s1] eqn:Hdl;
    destruct (Hgrows _ _ eq_refl) as (_ & _ & Hpre); cbn [snd] in *.
  all: rewrite (since_trans s (logged s evs) s1) by (done || by eexists).
  all: by rewrite requests_app, since_logged, Hreq.
Qed.

(** The requests of [dispatch], from the namespace and the starting
    state. *)
Lemma dispatch_requests ns s :
  requests (since s (dispatch env ns s).2) =
    match ns !! "command" with
    | None => []
    | Some command =>
        if eq_str command "download" then
          if wants_verify ns then
            EHead model_url 10
            :: (if (verify_verdict (http_head env model_url)).1 then fetch s else [])
          else fetch s
        else if eq_str command "transcribe" then
          match ns !! "audio_path" with
          | Some (PStr audio_path) =>
              if bool_decide (audio_path ∈ fs s) then fetch s else []
          | _ => []
          end
        else []
    end.
Proof.
  rewrite dispatch_cases.
  destruct (ns !! "command") as [command|]; [|cbn [snd]; by rewrite since_refl].
  destruct (eq_str command "download").
  { destruct (wants_verify ns).
    - cbv zeta. pose proof (verify_verdict_prints (http_head env model_url)) as Hline.
      destruct (verify_verdict (http_head env model_url)) as [ok line].
      cbn [fst snd] in *. destruct ok.
      + rewrite download_and_exit_requests. unfold requests at 1. simpl.
        by rewrite Hline.
      + cbn [snd]. unfold logged at 1. cbn [trace].
        rewrite (since_app s _ ([EHead model_url 10; line] ++ [abort_line]))
          by (simpl; by rewrite <- app_assoc).
        unfold requests. simpl. by rewrite Hline.
    - rewrite <- (logged_nil s) at 2. by rewrite download_and_exit_requests. }
  destruct (eq_str command "transcribe"); [|cbn [snd]; by rewrite since_logged].
  destruct (ns !! "audio_path") as [[| | | |audio_path| | |]|];
    try (cbn [snd]; by rewrite since_refl).
  pose proof (transcribe_audio_requests env audio_path s) as Hreq.
  pose proof (grows_transcribe_audio env audio_path s) as Hgrows.
  destruct (transcribe_audio env audio_path s) as [[doc|e] s1];
    destruct (Hgrows _ _ eq_refl) as (_ & _ & Hpre); cbn [snd] in *.
  - rewrite (since_logged_after s s1 _ Hpre), requests_app, Hreq. unfold fetch.
    destruct (bool_decide (audio_path ∈ fs s)), (bool_decide (WHISPER_MODEL_PATH env ∈ fs s));
      reflexivity.
  - rewrite Hreq. unfold fetch.
    destruct (bool_decide (audio_path ∈ fs s)), (bool_decide (WHISPER_MODEL_PATH env ∈ fs s));
      reflexivity.
Qed.

(** The requests of [main]: none unless the parser accepts the command
    line. *)
Lemma main_requests argv s :
  requests (since s (main env argv s).2) =
    match Argparse.parse_args subparsers parser argv with
    | Argparse.PDone ns _ => requests (since s (dispatch env ns s).2)
    | _ => []
    end.
Proof.
  rewrite main_cases.
  destruct (Argparse.parse_args subparsers parser argv); [done| |];
    cbn [snd]; by rewrite since_logged.
Qed.

End RunRequests.

(** X9. A run of [main] sends at most two requests, both to the model URL:
    at most one HEAD, with a timeout of 10 seconds, and after it at most
    one GET into the model path.  A GET is made only when the model file
    is absent when [main] starts. *)
Theorem X9_at_most_two_requests env argv s :
  ∃ heads gets,
    requests (since s (main env argv s).2) = heads ++ gets
    ∧ (heads = [] ∨ heads = [EHead model_url 10])
    ∧ (gets = [] ∨ gets = [EGet model_url (WHISPER_MODEL_PATH env)]
                   ∧ WHISPER_MODEL_PATH env ∉ fs s).
Proof.
  rewrite main_requests.
  assert (fetch env s = [] ∨ fetch env s = [EGet model_url (WHISPER_MODEL_PATH env)]
                              ∧ WHISPER_MODEL_PATH env ∉ fs s) as Hfetch.
  { unfold fetch. destruct (decide (WHISPER_MODEL_PATH env ∈ fs s)) as [Hin|Hnotin].
    - left. by rewrite bool_decide_eq_true_2.
    - right. by rewrite bool_decide_eq_false_2. }
  destruct (Argparse.parse_args subparsers parser argv) as [ns extras| |];
    [|by exists [], []; auto..].
  rewrite dispatch_requests.
  destruct (ns !! "command") as [command|]; [|by exists [], []; auto].
  destruct (eq_str command "download").
  { destruct (wants_verify ns).
    - destruct (verify_verdict (http_head env model_url)).1.
      + exists [EHead model_url 10], (fetch env s). auto.
      + exists [EHead model_url 10], []. auto.
    - exists [], (fetch env s). auto. }
  destruct (eq_str command "transcribe"); [|by exists [], []; auto].
  destruct (ns !! "audio_path") as [[| | | |audio_path| | |]|];
    try (by exists [], []; auto).
  destruct (bool_decide (audio_path ∈ fs s)); [|by exists [], []; auto].
  exists [], (fetch env s). auto.
Qed.

(** X10. The verification is never run implicitly: if a run sends a HEAD
    request, then the parser accepted the command line as the [download]
    command with [--verify] set.  The [transcribe] command, a plain
    [download], the help and every rejected command line send none. *)
Theorem X10_head_only_when_verifying env argv s url timeout :
  EHead url timeout ∈ since s (main env argv s).2 →
  ∃ ns, parses_to argv ns
        ∧ ns !! "command" = Some (PStr "download")
        ∧ wants_verify ns = true
        ∧ url = model_url ∧ timeout = 10.
Proof.
  intros Hhead.
  assert (EHead url timeout ∈ requests (since s (main env argv s).2)) as Hreq.
  { unfold requests. apply list_elem_of_In, List.filter_In.
    split; [by apply list_elem_of_In|done]. }
  clear Hhead. rewrite main_requests in Hreq.
  assert (∀ l, EHead url timeout ∈ fetch env s ++ l → EHead url timeout ∈ l) as Hfetch.
  { intros l. unfold fetch. destruct (bool_decide _); [done|].
    simpl. rewrite elem_of_cons. by intros [[=]|?]. }
  pose proof (Hfetch []) as Hfetch0. rewrite app_nil_r in Hfetch0.
  destruct (Argparse.parse_args subparsers parser argv) as [ns extras| |] eqn:Hparse;
    [|by apply elem_of_nil in Hreq..].
  pose proof (parse_args_extras _ _ _ _ _ Hparse) as ->.
  rewrite dispatch_requests in Hreq.
  destruct (ns !! "command") as [command|] eqn:Hc; [|by apply elem_of_nil in Hreq].
  destruct (eq_str command "download") eqn:Hd.
  { apply eq_str_true in Hd. subst command.
    destruct (wants_verify ns) eqn:Hv.
    - exists ns. split; [exact Hparse|]. split; [done|]. split; [done|].
      apply elem_of_cons in Hreq as [[= -> ->]|Hreq]; [done|].
      destruct (verify_verdict (http_head env model_url)).1.
      + by apply Hfetch0, elem_of_nil in Hreq.
      + by apply elem_of_nil in Hreq.
    - by apply Hfetch0, elem_of_nil in Hreq. }
  destruct (eq_str command "transcribe"); [|by apply elem_of_nil in Hreq].
  destruct (ns !! "audio_path") as [[| | | |audio_path| | |]|];
    try (by apply elem_of_nil in Hreq).
  destruct (bool_decide (audio_path ∈ fs s)); [|by apply elem_of_nil in Hreq].
  by apply Hfetch0, elem_of_nil in Hreq.
Qed.

Lemma X10_witness :
  EHead model_url 10 ∈ since first_use_state (main stub_env ["download"; "--verify"] first_use_state).2
  ∧ ∃ ns, parses_to ["download"; "--verify"] ns ∧ wants_verify ns = true.
Proof.
  assert (EHead model_url 10
            ∈ since first_use_state
                (main stub_env ["download"; "--verify"] first_use_state).2) as Hhead.
  { assert (since first_use_state
              (main stub_env ["download"; "--verify"] first_use_state).2
            = EHead model_url 10
              :: drop 1 (since first_use_state
                           (main stub_env ["download"; "--verify"] first_use_state).2))
      as -> by (by vm_compute).
    apply elem_of_cons. by left. }
  split; [exact Hhead|].
  destruct (X10_head_only_when_verifying stub_env _ _ _ _ Hhead)
    as (ns & Hparse & _ & Hverify & _).
  by exists ns.
Defined.

(** ** The trace is write-only *)

Section Frame.

Variable env : Env.

(** [download_model] does not read the trace: started after more events,
    it answers the same, changes the file system the same way and adds the
    same events. *)
Lemma download_model_logged s evs :
  download_model env (logged s evs) =
    ((download_model env s).1,
     {| fs := fs (download_model env s).2;
        modules := modules (download_model env s).2;
        trace := trace s ++ evs ++ since s (download_model env s).2 |}).
Proof.
  rewrite download_model_since.
  destruct (decide (WHISPER_MODEL_PATH env ∈ fs s)) as [Hin|Hnotin].
  - rewrite (bool_decide_eq_true_2 _ Hin).
    rewrite (download_model_cached env s Hin).
    rewrite (download_model_cached env (logged s evs)) by done.
    unfold logged. simpl. by rewrite <- app_assoc.
  - rewrite (bool_decide_eq_false_2 _ Hnotin).
    rewrite (download_model_fresh env s Hnotin).
    rewrite (download_model_fresh env (logged s evs)) by done.
    destruct (http_get env model_url); simpl; by rewrite <- app_assoc.
Qed.

End Frame.

(** X11. A verification that passes changes nothing in the download that
    follows it.  For the [download] command with [--verify] and a model
    URL that passes the check, the exit status, the file system and the
    importable modules at the end are those of the same command without
    [--verify], and the events are the HEAD request and the size line
    followed by the events of the plain download. *)
Theorem X11_passed_verification_is_transparent env ns ns' s :
  ns !! "command" = Some (PStr "download") →
  ns' !! "command" = Some (PStr "download") →
  wants_verify ns = true →
  wants_verify ns' = false →
  (verify_verdict (http_head env model_url)).1 = true →
  let checked := dispatch env ns s in
  let plain := dispatch env ns' s in
  checked.1 = plain.1
  ∧ fs checked.2 = fs plain.2
  ∧ modules checked.2 = modules plain.2
  ∧ since s checked.2
    = EHead model_url 10 :: (verify_verdict (http_head env model_url)).2
      :: since s plain.2.
Proof.
  intros Hc Hc' Hv Hv' Hpass. cbv zeta.
  rewrite (dispatch_download env ns s Hc), (dispatch_download env ns' s Hc').
  rewrite Hv, Hv'. cbv zeta. rewrite Hpass.
  unfold download_and_exit. rewrite download_model_logged.
  destruct (download_model env s) as [[ok|e] s1]; cbn [fst snd].
  all: repeat split.
  all: apply since_app; cbn [trace]; reflexivity.
Qed.

Lemma X11_witness :
  (verify_verdict (http_head stub_env model_url)).1 = true
  ∧ (dispatch stub_env (download_namespace false true) first_use_state).1
    = (dispatch stub_env (download_namespace false false) first_use_state).1.
Proof.
  split; [reflexivity|].
  exact (proj1 (X11_passed_verification_is_transparent stub_env
                  (download_namespace false true) (download_namespace false false)
                  first_use_state eq_refl eq_refl eq_refl eq_refl eq_refl)).
Defined.

(** ** The command line *)

Lemma parse_optional_help a :
  a = "-h" ∨ a = "--help" →
  Argparse._parse_optional parser a
  = inr (Some {| Argparse.ot_action := Some Argparse.Help;
                 Argparse.ot_option_string := a;
                 Argparse.ot_explicit_arg := None |}).
Proof. by intros [->| ->]. Qed.

Lemma parse_args_help a rest :
  a = "-h" ∨ a = "--help" →
  Argparse.parse_args subparsers parser (a :: rest)
  = Argparse.PHelp "simple_whisper_solution.py".
Proof.
  intros Ha.
  unfold Argparse.parse_args, Argparse.parse_known_args.
  cbn [Argparse.classify].
  replace (String.eqb a "--") with false by (by destruct Ha as [->| ->]).
  rewrite (parse_optional_help a Ha).
  destruct (classify_parser_total rest) as [toks ->].
  reflexivity.
Qed.

(** X12. A command line that starts with [-h] or [--help] prints the help
    of the top-level parser and exits with status 0, whatever follows:
    the rest is neither run nor reported as an error. *)
Theorem X12_help_first env a rest s :
  a = "-h" ∨ a = "--help" →
  main env (a :: rest) s
  = (Raise (SystemExit 0), logged s [EHelp "simple_whisper_solution.py"]).
Proof.
  intros Ha. apply main_help. by apply parse_args_help.
Qed.

Lemma X12_witness :
  main stub_env ["--help"; "download"; "--frobnicate"] first_use_state
  = (Raise (SystemExit 0), logged first_use_state [EHelp "simple_whisper_solution.py"]).
Proof. apply X12_help_first. by right. Defined.

(** X13. After [--] every string is taken as the audio path, also one
    that starts with a dash: [transcribe -- <path>] is accepted for every
    [path] and runs [transcribe_audio] on it. *)
Theorem X13_path_after_double_dash env path s :
  (∃ ns, parses_to ["transcribe"; "--"; path] ns
         ∧ ns !! "command" = Some (PStr "transcribe")
         ∧ ns !! "audio_path" = Some (PStr path))
  ∧ main env ["transcribe"; "--"; path] s
    = match transcribe_audio env path s with
      | (Ok doc, s1) => (Raise (SystemExit 0), logged s1 [EPrintJson doc])
      | (Raise e, s1) => (Raise e, s1)
      end.
Proof.
  assert (∃ ns, parses_to ["transcribe"; "--"; path] ns
                ∧ ns !! "command" = Some (PStr "transcribe")
                ∧ ns !! "audio_path" = Some (PStr path)) as Hparse.
  { eexists. split; [|split]; [by vm_compute|by vm_compute..]. }
  split; [exact Hparse|].
  destruct Hparse as (ns & Hparse & Hcommand & Hpath).
  rewrite (main_parsed _ _ _ _ Hparse).
  by apply dispatch_transcribe.
Qed.

(** ** The module body, lines 21-53 and 65 *)


(** ** A download, then a transcription *)

Section Cached.

Variable env : Env.

Lemma download_model_true s s' :
  download_model env s = (Ok true, s') → WHISPER_MODEL_PATH env ∈ fs s'.
Proof.
  destruct (decide (WHISPER_MODEL_PATH env ∈ fs s)) as [Hin|Hnotin].
  - rewrite (download_model_cached env s Hin). by intros [= <-].
  - rewrite (download_model_fresh env s Hnotin).
    destruct (http_get env model_url); [|done].
    intros [= <-]. simpl. apply elem_of_union. left. by apply elem_of_singleton.
Qed.

Lemma download_and_exit_0 s s' :
  download_and_exit env s = (Raise (SystemExit 0), s') → WHISPER_MODEL_PATH env ∈ fs s'.
Proof.
  unfold download_and_exit.
  destruct (download_model_returns env s) as (ok & s1 & Hdl). rewrite Hdl.
  destruct ok; [|done]. intros [= <-]. by eapply download_model_true.
Qed.

End Cached.

(** X15. After a [download] command that exits with status 0 the model
    file exists; from then on, as long as it is not removed,
    [download_model] answers [True] without any request and
    [transcribe_audio] sends no request either. *)
Theorem X15_download_then_offline env ns s s' :
  ns !! "command" = Some (PStr "download") →
  dispatch env ns s = (Raise (SystemExit 0), s') →
  WHISPER_MODEL_PATH env ∈ fs s'
  ∧ ∀ later audio_path,
      fs s' ⊆ fs later →
      download_model env later
        = (Ok true,
           logged later [EPrint ("Model already exists at: " +:+ WHISPER_MODEL_PATH env)])
      ∧ requests (since later (transcribe_audio env audio_path later).2) = [].
Proof.
  intros Hcommand Hrun.
  assert (WHISPER_MODEL_PATH env ∈ fs s') as Hin.
  { rewrite (dispatch_download env ns s Hcommand) in Hrun.
    destruct (wants_verify ns); [|by eapply download_and_exit_0].
    cbv zeta in Hrun.
    destruct (verify_verdict (http_head env model_url)).1; [|done].
    by eapply download_and_exit_0. }
  split; [exact Hin|]. intros later audio_path Hsub.
  assert (WHISPER_MODEL_PATH env ∈ fs later) as Hlater by (by apply Hsub).
  split; [by apply download_model_cached|].
  rewrite transcribe_audio_requests, (bool_decide_eq_true_2 _ Hlater).
  by destruct (bool_decide (audio_path ∈ fs later)).
Qed.

Lemma X15_witness :
  dispatch stub_env (download_namespace false false) first_use_state
  = (Raise (SystemExit 0), (download_model stub_env first_use_state).2)
  ∧ WHISPER_MODEL_PATH stub_env ∈ fs (download_model stub_env first_use_state).2.
Proof.
  assert (dispatch stub_env (download_namespace false false) first_use_state
          = (Raise (SystemExit 0), (download_model stub_env first_use_state).2)) as Hrun
    by (by vm_compute).
  split; [exact Hrun|].
  exact (proj1 (X15_download_then_offline stub_env (download_namespace false false)
                  first_use_state _ eq_refl Hrun)).
Defined.

(** ** The reachability check, lines 106-124 *)









(** ** Where the model is kept, lines 58-62 *)

Lemma append_cons c (a b : string) : String c a +:+ b = String c (a +:+ b).
Proof. reflexivity. Qed.

Lemma append_assoc (a b c : string) : (a +:+ b) +:+ c = a +:+ (b +:+ c).
Proof.
  induction a as [|x a IH]; [done|]. rewrite !append_cons. by f_equal.
Qed.

Lemma ends_with_sep_app a b :
  b ≠ "" → Str.ends_with_sep (a +:+ b) = Str.ends_with_sep b.
Proof.
  intros Hb. induction a as [|c a IH]; [done|].
  rewrite append_cons. simpl. rewrite IH.
  destruct (a +:+ b) eqn:E; [|done].
  destruct a, b; done.
Qed.

Lemma os_path_join_plain a d b :
  a ≠ "" → Str.ends_with_sep a = false → Ascii.eqb d "/" = false →
  os_path_join a (String d b) = a +:+ "/" +:+ String d b.
Proof.
  intros Ha Hsep Hd. unfold os_path_join.
  destruct a as [|c a]; [done|]. rewrite Hsep.
  destruct d as [[] [] [] [] [] [] [] []]; first [reflexivity|discriminate].
Qed.

Lemma mem_char_app c a b :
  Str.mem_char c (a +:+ b) = Str.mem_char c a || Str.mem_char c b.
Proof.
  induction a as [|d a IH]; [done|].
  rewrite append_cons. simpl. rewrite IH. by rewrite orb_assoc.
Qed.

Lemma upto_last_sep_app d f :
  Str.mem_char "/" f = false →
  Str.upto_last_sep (d +:+ "/" +:+ f) = d +:+ "/".
Proof.
  intros Hf. induction d as [|c d IH].
  - change ("" +:+ "/" +:+ f) with (String "/" f). simpl. by rewrite Hf.
  - change (Str.upto_last_sep (String c (d +:+ "/" +:+ f)) = String c (d +:+ "/")).
    cbn [Str.upto_last_sep]. rewrite IH, mem_char_app.
    change (Str.mem_char "/" ("/" +:+ f)) with true. by rewrite orb_true_r.
Qed.

Lemma all_sep_app a b : Str.all_sep (a +:+ b) = Str.all_sep a && Str.all_sep b.
Proof.
  induction a as [|c a IH]; [done|].
  rewrite append_cons. simpl. rewrite IH. by rewrite andb_assoc.
Qed.

Lemma rev_app_app a b acc :
  String.rev_app (a +:+ b) acc = String.rev_app b (String.rev_app a acc).
Proof.
  revert acc. induction a as [|c a IH]; intros acc; [done|].
  rewrite append_cons. simpl. apply IH.
Qed.

Section Layout.

Variable env : Env.

(** The home directory without its trailing slashes, or [~] when it is
    not known. *)
Definition home_prefix : string :=
  match home env with
  | Some h => Str.rstrip_sep h
  | None => "~"
  end.

Lemma APP_DATA_DIR_eq : APP_DATA_DIR env = home_prefix +:+ "/.fethr".
Proof.
  unfold APP_DATA_DIR, expanduser_fethr, home_prefix. by destruct (home env).
Qed.

Lemma MODELS_DIR_eq : MODELS_DIR env = home_prefix +:+ "/.fethr/models".
Proof.
  unfold MODELS_DIR. rewrite APP_DATA_DIR_eq.
  rewrite os_path_join_plain.
  - by rewrite append_assoc.
  - by destruct home_prefix.
  - by rewrite ends_with_sep_app.
  - done.
Qed.

Lemma WHISPER_MODEL_PATH_eq :
  WHISPER_MODEL_PATH env = home_prefix +:+ "/.fethr/models/ggml-tiny.en.bin".
Proof.
  unfold WHISPER_MODEL_PATH. rewrite MODELS_DIR_eq.
  change ("ggml-" +:+ MODEL_SIZE +:+ "." +:+ MODEL_LANG +:+ ".bin") with "ggml-tiny.en.bin".
  rewrite os_path_join_plain.
  - by rewrite append_assoc.
  - by destruct home_prefix.
  - by rewrite ends_with_sep_app.
  - done.
Qed.

Lemma rstrip_sep_models d :
  Str.rstrip_sep (d +:+ "/.fethr/models/") = d +:+ "/.fethr/models".
Proof.
  unfold Str.rstrip_sep, String.rev.
  rewrite rev_app_app. simpl.
  rewrite rev_app_rev_app. reflexivity.
Qed.

Lemma dirname_WHISPER_MODEL_PATH :
  os_path_dirname (WHISPER_MODEL_PATH env) = MODELS_DIR env.
Proof.
  rewrite WHISPER_MODEL_PATH_eq, MODELS_DIR_eq.
  unfold os_path_dirname.
  change "/.fethr/models/ggml-tiny.en.bin"
    with ("/.fethr/models" +:+ "/" +:+ "ggml-tiny.en.bin").
  rewrite <- append_assoc, upto_last_sep_app by done.
  rewrite append_assoc. change ("/.fethr/models" +:+ "/") with "/.fethr/models/".
  rewrite all_sep_app. replace (Str.all_sep "/.fethr/models/") with false by done.
  rewrite andb_false_r.
  rewrite rstrip_sep_models.
  by destruct home_prefix.
Qed.

End Layout.

(** ** What a run writes *)

(** The calls that create something, with the paths the script may pass
    to them. *)
Definition writes_to (models_dir model_path : string) (ev : event) : bool :=
  match ev with
  | EMakedirs path => String.eqb path models_dir
  | EGet url dest => String.eqb url model_url && String.eqb dest model_path
  | _ => true
  end.

Ltac emits_eqb :=
  repeat first
    [ emits_step
    | apply emits_emit; cbn [writes_to]; rewrite ?String.eqb_refl; reflexivity ].

Section Written.

Variable env : Env.

Lemma script_writes_to argv :
  emits (writes_to (MODELS_DIR env) (WHISPER_MODEL_PATH env)) (script env argv).
Proof.
  unfold script, module_level, main, parse_args, dispatch, getattr, transcribe_audio,
    download_model, verify_model_download, install_whisper, pip_check_call,
    urlretrieve, urlopen_head, load_model, model_transcribe, dict_item.
  rewrite dirname_WHISPER_MODEL_PATH.
  change ("https://huggingface.co/ggerganov/whisper.cpp/resolve/main/ggml-"
          +:+ MODEL_SIZE +:+ "." +:+ MODEL_LANG +:+ ".bin") with model_url.
  emits_eqb.
Qed.

End Written.

(** X17. The model file lies directly in the models directory, which lies
    directly in the application directory, whatever the home directory
    is; so the directory [download_model] creates before a transfer is
    the models directory that the module body has created already.  In a
    whole run of the script, whatever the command line and the outside
    world, [os.makedirs] is only ever called on the models directory and
    [urlretrieve] only ever fetches the model URL into the model path. *)
Theorem X17_paths_written env argv s0 :
  os_path_dirname (WHISPER_MODEL_PATH env) = MODELS_DIR env
  ∧ MODELS_DIR env = APP_DATA_DIR env +:+ "/models"
  ∧ WHISPER_MODEL_PATH env = MODELS_DIR env +:+ "/ggml-tiny.en.bin"
  ∧ Forall (λ ev, match ev with
                  | EMakedirs path => path = MODELS_DIR env
                  | EGet url dest => url = model_url ∧ dest = WHISPER_MODEL_PATH env
                  | _ => True
                  end)
           (since s0 (script env argv s0).2).
Proof.
  split; [apply dirname_WHISPER_MODEL_PATH|].
  split; [by rewrite MODELS_DIR_eq, APP_DATA_DIR_eq, append_assoc|].
  split; [by rewrite WHISPER_MODEL_PATH_eq, MODELS_DIR_eq, append_assoc|].
  destruct (script env argv s0) as [r s'] eqn:Hrun. cbn [snd].
  destruct (script_writes_to env argv _ _ _ Hrun) as (evs & Hevs & Hall).
  rewrite (since_app _ _ _ Hevs).
  eapply Forall_impl; [exact Hall|]. intros ev Hev.
  destruct ev; try done; simpl in Hev.
  - by apply String.eqb_eq.
  - apply andb_true_iff in Hev as [Hurl Hdest].
    split; by apply String.eqb_eq.
Qed.

(** ** What the parser can hand to [main] *)

Section Accepted.

Import Argparse.

(** [a] is the action of one of the parser's options. *)
Definition action_of (p : parser) (a : opt_action) : Prop :=
  a ∈ (snd <$> option_string_actions p).

Definition opt_ok (p : parser) (t : option_tuple) : Prop :=
  ∀ a, ot_action t = Some a → action_of p a.

(** The shape of a classified command line, and of what is left of it
    after an option: strings other than [--] that are positionals or
    options of the parser, then possibly a [--] followed by positionals
    only. *)
Fixpoint wf_open (p : parser) (toks : list (string * arg_class)) : Prop :=
  match toks with
  | [] => True
  | (s, ClsA) :: rest => s ≠ "--" ∧ wf_open p rest
  | (s, ClsO t) :: rest => opt_ok p t ∧ wf_open p rest
  | (s, ClsDash) :: rest => s = "--" ∧ Forall (λ tok, tok.2 = ClsA) rest
  end.

Lemma lookup_action_of s acts a :
  lookup_action s acts = Some a → a ∈ (snd <$> acts).
Proof.
  induction acts as [|[o a'] acts IH]; [done|]. simpl.
  destruct (String.eqb s o).
  - intros [= ->]. apply elem_of_cons. by left.
  - intros H. apply elem_of_cons. right. by apply IH.
Qed.

Lemma get_option_tuples_ok p s t :
  t ∈ _get_option_tuples p s → opt_ok p t.
Proof.
  unfold _get_option_tuples.
  destruct (is_long s).
  - destruct (if Str.mem_char "=" s then _ else _) as [option_prefix explicit_arg].
    intros Ht. apply list_elem_of_omap in Ht as ([o a] & Hin & Hf).
    destruct (String.prefix option_prefix o); [|done].
    injection Hf as <-. intros a' [= <-].
    unfold action_of. apply list_elem_of_fmap. by exists (o, a).
  - intros Ht. apply list_elem_of_omap in Ht as ([o a] & Hin & Hf).
    assert (action_of p a) as Ha
      by (unfold action_of; apply list_elem_of_fmap; by exists (o, a)).
    destruct (String.eqb o _).
    + injection Hf as <-. by intros a' [= <-].
    + destruct (String.prefix s o); [|done].
      injection Hf as <-. by intros a' [= <-].
Qed.

Lemma parse_optional_ok p s t :
  _parse_optional p s = inr (Some t) → opt_ok p t.
Proof.
  unfold _parse_optional.
  destruct s as [|c tail]; [done|].
  destruct (negb (Ascii.eqb c "-")); [done|].
  destruct (lookup_action (String c tail) (option_string_actions p)) as [a|] eqn:Hl.
  { intros [= <-] a' [= <-]. by eapply lookup_action_of. }
  destruct tail as [|c2 tail]; [done|].
  destruct (split_explicit p (String c (String c2 tail))) as [t'|] eqn:Hs.
  { intros [= <-]. unfold split_explicit in Hs.
    destruct (Str.mem_char "=" _); [|done].
    destruct (Str.split_first "=" _) as [option_string explicit_arg].
    destruct (lookup_action option_string _) as [a|] eqn:Hl'; [|done].
    injection Hs as <-. intros a' [= <-]. by eapply lookup_action_of. }
  cbv zeta.
  destruct (_get_option_tuples p (String c (String c2 tail))) as [|t1 [|t2 l]] eqn:Hg.
  - unfold unmatched. destruct (_negative_number_matcher _); [done|].
    destruct (Str.mem_char " " _); [done|]. by intros [= <-] a' [=].
  - intros [= <-]. apply (get_option_tuples_ok p (String c (String c2 tail))).
    rewrite Hg. apply elem_of_cons. by left.
  - done.
Qed.

Lemma classify_wf p args toks : classify p args = inr toks → wf_open p toks.
Proof.
  revert toks. induction args as [|arg args IH]; intros toks.
  - by intros [= <-].
  - cbn [classify]. destruct (String.eqb arg "--") eqn:E.
    + apply String.eqb_eq in E. intros [= <-]. split; [done|].
      apply Forall_fmap. by apply Forall_true.
    + apply String.eqb_neq in E.
      destruct (_parse_optional p arg) as [e|cls] eqn:Hp; [done|].
      destruct (classify p args) as [e|toks']; [done|].
      intros [= <-]. destruct cls as [t|]; simpl.
      * split; [by eapply parse_optional_ok|by apply IH].
      * split; [done|by apply IH].
Qed.

Lemma count_dashes_positionals l :
  Forall (λ tok : string * arg_class, tok.2 = ClsA) l → count_dashes l = 0%nat.
Proof. destruct 1 as [|[s c] l Hc _]; [done|]. simpl in Hc. by subst c. Qed.

Lemma next_option_positionals l :
  Forall (λ tok : string * arg_class, tok.2 = ClsA) l → next_option l = None.
Proof.
  induction 1 as [|[s c] l Hc _ IH]; [done|]. simpl in Hc. subst c.
  simpl. by rewrite IH.
Qed.

(** Up to the next option there are positionals only, and what follows
    the option has the shape again. *)
Lemma next_option_wf p toks pre s t post :
  wf_open p toks → next_option toks = Some (pre, (s, t), post) →
  opt_ok p t ∧ wf_open p post ∧ drop (S (List.length pre)) toks = post
  ∧ match pre with
    | [] => True
    | x :: _ => ∃ rest, toks = (x, ClsA) :: rest ∧ x ≠ "--" ∧ wf_open p rest
                        ∧ count_dashes rest = 0%nat
    end.
Proof.
  revert pre. induction toks as [|[x c] toks IH]; intros pre; [done|].
  destruct c as [| |t'].
  - intros [Hx Hwf]. cbn [next_option].
    destruct (next_option toks) as [[[pre' [s' t'']] post']|] eqn:Hn; [|done].
    intros [= <- <- <- <-].
    destruct (IH _ Hwf eq_refl) as (Hok & Hpost & Hdrop & Hpre).
    split; [done|]. split; [done|]. split; [exact Hdrop|].
    exists toks. split; [done|]. split; [done|]. split; [done|].
    destruct toks as [|[y [| |ty]] toks']; try done.
    destruct Hwf as [_ Hall]. cbn [next_option] in Hn.
    by rewrite (next_option_positionals _ Hall) in Hn.
  - intros [_ Hall]. cbn [next_option].
    by rewrite (next_option_positionals _ Hall).
  - intros [Hok Hwf] [= <- <- <- <-]. done.
Qed.

Lemma remove_first_dashes p after :
  wf_open p after →
  remove_first "--" (fst <$> take (count_dashes after) after) = [].
Proof.
  destruct after as [|[s [| |t]] after]; try done.
  intros [-> Hall]. simpl. by rewrite (count_dashes_positionals _ Hall).
Qed.

Lemma take_actions_help p acts ns r :
  take_actions p acts ns = inl r → r = PHelp (prog p).
Proof.
  revert ns. induction acts as [|[|dest] acts IH]; intros ns; [done| |by apply IH].
  by intros [= <-].
Qed.

Section Reach.

Variable sub : string → list string → presult.
Variable p : parser.

(** The namespaces that a run of the parser can end with: flags set, the
    positional stored, the namespace of a sub-command merged. *)
Inductive reach : option positional_action → gmap string pyval → gmap string pyval → Prop :=
| reach_done pos ns :
    (∀ dest, pos ≠ Some (Store dest)) → reach pos ns ns
| reach_flag pos dest ns ns' :
    action_of p (StoreTrue dest) →
    reach pos (<[dest := PBool true]> ns) ns' → reach pos ns ns'
| reach_store dest x ns ns' :
    reach None (<[dest := PStr x]> ns) ns' → reach (Some (Store dest)) ns ns'
| reach_sub dest choices x args subns ns ns' :
    x ∈ choices → sub x args = PDone subns [] →
    reach None (subns ∪ <[dest := PStr x]> ns) ns' →
    reach (Some (SubParsers dest choices)) ns ns'.

Lemma take_actions_reach acts ns ns1 pos ns' :
  Forall (action_of p) acts → take_actions p acts ns = inr ns1 →
  reach pos ns1 ns' → reach pos ns ns'.
Proof.
  intros Hacts. revert ns. induction Hacts as [|a acts Ha _ IH]; intros ns.
  - by intros [= <-].
  - destruct a as [|dest]; [done|]. cbn [take_actions]. intros Ht Hr.
    eapply reach_flag; [exact Ha|]. by eapply IH.
Qed.

Lemma consume_explicit_ok explicit_arg action option_string tuples acts :
  action_of p action → Forall (action_of p) tuples →
  consume_explicit p action option_string explicit_arg tuples = OptActions acts →
  Forall (action_of p) acts.
Proof.
  revert action option_string tuples.
  induction explicit_arg as [|c new IH]; intros action option_string tuples Ha Ht; [done|].
  cbn [consume_explicit].
  destruct (negb (is_long option_string)); [|done].
  destruct (lookup_action _ _) as [action'|] eqn:Hl; [|done].
  apply lookup_action_of in Hl.
  destruct new as [|c' new'].
  - intros [= <-]. apply Forall_app. split; [done|]. by repeat constructor.
  - apply IH; [done|]. apply Forall_app. split; [done|]. by repeat constructor.
Qed.

Lemma consume_optional_ok t acts :
  opt_ok p t → consume_optional p t = OptActions acts → Forall (action_of p) acts.
Proof.
  unfold consume_optional. intros Hok.
  destruct (ot_action t) as [action|] eqn:Ha; [|done].
  specialize (Hok _ Ha).
  destruct (ot_explicit_arg t) as [explicit_arg|].
  - by apply consume_explicit_ok.
  - intros [= <-]. by repeat constructor.
Qed.

(** The one positional of a sub-command parser takes one string. *)
Lemma consume_positionals_store dest x after ns :
  x ≠ "--" → wf_open p after →
  consume_positionals sub p (Some (Store dest)) ((x, ClsA) :: after) ns
  = PosTaken (S (count_dashes after)) (<[dest := PStr x]> ns) [].
Proof.
  intros Hx Hwf. unfold consume_positionals.
  cbn [count_dashes drop Nat.add take fmap list_fmap fst remove_first].
  replace (String.eqb "--" x) with false
    by (symmetry; apply String.eqb_neq; congruence).
  change ((fix go (l : list (string * arg_class)) : list string :=
             match l with [] => [] | x :: l => x.1 :: go l end)
            (take (count_dashes after) after))
    with (fst <$> take (count_dashes after) after).
  by rewrite (remove_first_dashes _ _ Hwf).
Qed.

Lemma consume_positionals_store_dashes dest y after ns :
  Forall (λ tok : string * arg_class, tok.2 = ClsA) after →
  consume_positionals sub p (Some (Store dest)) (("--", ClsDash) :: (y, ClsA) :: after) ns
  = PosTaken 2 (<[dest := PStr y]> ns) [].
Proof.
  intros Hall. unfold consume_positionals.
  cbn [count_dashes drop Nat.add]. rewrite (count_dashes_positionals _ Hall).
  reflexivity.
Qed.

(** [consume_optional] and [take_action] for the option at hand, then
    the rest of the loop. *)
Definition optional_step (rest : list (string * arg_class)) (skip : nat)
    (s : string) (t : option_tuple) (pos : option positional_action)
    (ns : gmap string pyval) (extras unrecognized : list string) : presult :=
  match consume_optional p t with
  | OptExtra => consume sub p rest skip pos ns (extras ++ [s]) unrecognized
  | OptError e => PError (prog p) e
  | OptActions acts =>
      match take_actions p acts ns with
      | inl r => r
      | inr ns' => consume sub p rest skip pos ns' extras unrecognized
      end
  end.

Lemma consume_cons tok rest pos ns extras unrecognized :
  consume sub p (tok :: rest) 0 pos ns extras unrecognized =
    match next_option (tok :: rest) with
    | None => finish sub p (tok :: rest) pos ns extras unrecognized
    | Some (pre, (s, t), _) =>
        match pre with
        | [] => optional_step rest (List.length pre) s t pos ns extras unrecognized
        | _ =>
            match consume_positionals sub p pos (tok :: rest) ns with
            | PosStop r => r
            | PosTaken (S n) ns' unrecognized' =>
                consume sub p rest n None ns' extras (unrecognized ++ unrecognized')
            | PosTaken O ns' unrecognized' =>
                optional_step rest (List.length pre) s t None ns' (extras ++ pre)
                  (unrecognized ++ unrecognized')
            | PosNone =>
                optional_step rest (List.length pre) s t pos ns (extras ++ pre) unrecognized
            end
        end
    end.
Proof. reflexivity. Qed.

(** What [finish] accepts. *)
Lemma finish_done toks pos ns extras unrecognized ns' :
  wf_open p toks →
  finish sub p toks pos ns extras unrecognized = PDone ns' [] →
  extras = [] ∧ unrecognized = [] ∧ reach pos ns ns'.
Proof.
  intros Hwf. unfold finish.
  assert (∀ ns1 (ex un : list string),
            PDone ns1 (ex ++ un) = PDone ns' [] → ns1 = ns' ∧ ex = [] ∧ un = [])
    as Hcheck.
  { by intros ns1 ex un [= -> [-> ->]%app_eq_nil]. }
  destruct pos as [[dest|dest choices]|].
  - (* one string for the positional *)
    destruct toks as [|[x [| |t]] after].
    + done.
    + destruct Hwf as [Hx Hwf].
      rewrite (consume_positionals_store _ _ _ _ Hx Hwf).
      intros H. apply Hcheck in H as (<- & [-> _]%app_eq_nil & [-> _]%app_eq_nil).
      repeat split. eapply reach_store. by apply reach_done.
    + destruct Hwf as [-> Hall].
      destruct after as [|[y c] after].
      * done.
      * apply Forall_cons in Hall as [Hc Hall]. simpl in Hc. subst c.
        rewrite (consume_positionals_store_dashes _ _ _ _ Hall).
        intros H. apply Hcheck in H as (<- & [-> _]%app_eq_nil & [-> _]%app_eq_nil).
        repeat split. eapply reach_store. by apply reach_done.
    + unfold consume_positionals. cbn [count_dashes drop]. done.
  - (* the sub-command and everything after it *)
    unfold consume_positionals.
    destruct (drop (count_dashes toks) toks) as [|[y [| |t]] after] eqn:Hd.
    + intros H. apply Hcheck in H as (<- & [-> _]%app_eq_nil & ->).
      repeat split. by apply reach_done.
    + destruct (fst <$> toks) as [|parser_name arg_strings] eqn:Hf.
      { intros H. apply Hcheck in H as (<- & [-> _]%app_eq_nil & ->).
        repeat split. by apply reach_done. }
      destruct (bool_decide (parser_name ∈ choices)) eqn:Hc; [|done].
      apply bool_decide_eq_true_1 in Hc.
      destruct (sub parser_name arg_strings) as [subns unrec| |] eqn:Hs; [|done..].
      intros H.
      apply Hcheck in H as (<- & [-> _]%app_eq_nil & [-> ->]%app_eq_nil).
      repeat split. eapply reach_sub; [exact Hc|exact Hs|]. by apply reach_done.
    + intros H. apply Hcheck in H as (<- & [-> _]%app_eq_nil & ->).
      repeat split. by apply reach_done.
    + intros H. apply Hcheck in H as (<- & [-> _]%app_eq_nil & ->).
      repeat split. by apply reach_done.
  - unfold consume_positionals.
    intros H. apply Hcheck in H as (<- & [-> _]%app_eq_nil & ->).
    repeat split. by apply reach_done.
Qed.

(** What the loop accepts: nothing is left over, and the namespace is
    one the parser can reach. *)
Lemma consume_done toks skip pos ns extras unrecognized ns' :
  wf_open p (drop skip toks) →
  consume sub p toks skip pos ns extras unrecognized = PDone ns' [] →
  extras = [] ∧ unrecognized = [] ∧ reach pos ns ns'.
Proof.
  revert skip pos ns extras unrecognized.
  induction toks as [|tok rest IH]; intros skip pos ns extras unrecognized Hwf.
  { cbn [consume]. by apply finish_done. }
  destruct skip as [|skip]; [|by apply IH].
  assert (∀ n s t pos1 ns1 ex un,
            opt_ok p t → wf_open p (drop n rest) →
            optional_step rest n s t pos1 ns1 ex un = PDone ns' [] →
            ex = [] ∧ un = [] ∧ reach pos1 ns1 ns') as Hoptional.
  { intros n s t pos1 ns1 ex un Hok Hwf1. unfold optional_step.
    destruct (consume_optional p t) as [|acts|e] eqn:Hopt; [| |done].
    - intros H. apply IH in H as ([? [=]]%app_eq_nil & _); done.
    - pose proof (consume_optional_ok _ _ Hok Hopt) as Hacts.
      destruct (take_actions p acts ns1) as [r|ns2] eqn:Ht.
      + apply take_actions_help in Ht as ->. done.
      + intros H. apply IH in H as (-> & -> & Hr); [|done].
        repeat split. by eapply take_actions_reach. }
  rewrite consume_cons. rewrite drop_0 in Hwf.
  destruct (next_option (tok :: rest)) as [[[pre [s t]] post]|] eqn:Hn.
  2: { by apply finish_done. }
  destruct (next_option_wf _ _ _ _ _ _ Hwf Hn) as (Hok & Hpost & Hdrop & Hpre).
  cbn [drop] in Hdrop.
  destruct pre as [|x pre].
  { apply Hoptional; [done|]. by rewrite Hdrop. }
  destruct Hpre as (rest' & [= -> <-] & Hx & Hrest & Hcount).
  assert (∀ pos1 ns1 un,
            optional_step rest (List.length (x :: pre)) s t pos1 ns1
              (extras ++ x :: pre) un ≠ PDone ns' []) as Hextras.
  { intros pos1 ns1 un H. apply Hoptional in H as ([_ [=]]%app_eq_nil & _); [done|].
    by rewrite Hdrop. }
  destruct pos as [[dest|dest choices]|].
  - rewrite (consume_positionals_store _ _ _ _ Hx Hrest), Hcount.
    intros H. apply IH in H as (-> & [-> _]%app_eq_nil & Hr); [|by rewrite drop_0].
    repeat split. by eapply reach_store.
  - unfold consume_positionals. cbn [count_dashes drop fmap list_fmap fst].
    destruct (bool_decide (x ∈ choices)) eqn:Hc; [|done].
    apply bool_decide_eq_true_1 in Hc.
    destruct (sub x _) as [subns unrec| |] eqn:Hs; [|done..].
    cbn [List.length].
    intros H. apply IH in H as (-> & [-> ->]%app_eq_nil & Hr);
      [|by rewrite drop_all].
    repeat split. by eapply reach_sub.
  - unfold consume_positionals. intros H. by apply Hextras in H.
Qed.

(** What the parser accepts without leftovers. *)
Lemma parse_known_args_done args ns' :
  parse_known_args sub p args = PDone ns' [] → reach (positional p) (defaults p) ns'.
Proof.
  unfold parse_known_args.
  destruct (classify p args) as [e|toks] eqn:Hc; [done|].
  intros H. apply consume_done in H as (_ & _ & Hr); [done|].
  rewrite drop_0. by eapply classify_wf.
Qed.

End Reach.

End Accepted.

(** The namespaces of the two sub-commands and of the script. *)

Lemma action_of_download dest :
  action_of download_parser (Argparse.StoreTrue dest) → dest = "verbose" ∨ dest = "verify".
Proof.
  unfold action_of. cbn. rewrite !elem_of_cons, elem_of_nil.
  intros [[=]|[[=]|[[= ->]|[[= ->]|[]]]]]; auto.
Qed.

Lemma action_of_help p dest :
  Argparse.option_string_actions p = [("-h", Argparse.Help); ("--help", Argparse.Help)] →
  ¬ action_of p (Argparse.StoreTrue dest).
Proof.
  unfold action_of. intros ->. cbn. rewrite !elem_of_cons, elem_of_nil.
  intros [[=]|[[=]|[]]].
Qed.

(** The flags of [download]. *)
Definition download_flags (verbose verify : bool) : gmap string pyval :=
  {["verbose" := PBool verbose; "verify" := PBool verify]}.

Lemma reach_download sub pos ns ns' :
  reach sub download_parser pos ns ns' →
  pos = None →
  (∃ verbose verify, ns = download_flags verbose verify) →
  ∃ verbose verify, ns' = download_flags verbose verify.
Proof.
  induction 1 as [pos ns _|pos dest ns ns' Ha _ IH| |]; intros Hpos Hns; [done| |done..].
  apply IH; [done|].
  destruct Hns as (verbose & verify & ->).
  destruct (action_of_download _ Ha) as [-> | ->].
  - exists true, verify. by destruct verbose, verify.
  - exists verbose, true. by destruct verbose, verify.
Qed.

Lemma reach_without_flags sub p pos ns ns' :
  (∀ dest, ¬ action_of p (Argparse.StoreTrue dest)) →
  reach sub p pos ns ns' → pos = None → ns' = ns.
Proof.
  intros Hnone. induction 1 as [|pos dest ns ns' Ha _ _| |]; intros Hpos; [done| |done..].
  by apply Hnone in Ha.
Qed.

Lemma reach_transcribe sub ns' :
  reach sub transcribe_parser (Some (Argparse.Store "audio_path")) {["audio_path" := PNone]} ns' →
  ∃ path, ns' = {["audio_path" := PStr path]}.
Proof.
  intros H. inversion H as [pos ns Hpos|pos dest ns ns1 Ha _|dest x ns ns1 Hr|]; subst.
  - by destruct (Hpos "audio_path").
  - by apply (action_of_help transcribe_parser) in Ha.
  - apply reach_without_flags in Hr; [|by intros d; apply action_of_help|done].
    subst ns'. by exists x.
Qed.

Lemma reach_parser ns' :
  reach subparsers parser
    (Some (Argparse.SubParsers "command" ["download"; "transcribe"]))
    {["command" := PNone]} ns' →
  ns' = {["command" := PNone]}
  ∨ ∃ name args subns,
      name ∈ ["download"; "transcribe"]
      ∧ subparsers name args = Argparse.PDone subns []
      ∧ ns' = subns ∪ <["command" := PStr name]> {["command" := PNone]}.
Proof.
  intros H.
  inversion H as [pos ns Hpos|pos dest ns ns1 Ha _| |dest choices x args subns ns ns1 Hx Hs Hr];
    subst.
  - by left.
  - by apply (action_of_help parser) in Ha.
  - apply reach_without_flags in Hr; [|by intros d; apply action_of_help|done].
    subst ns'. right. by exists x, args, subns.
Qed.

Lemma parse_args_done sub p args ns :
  Argparse.parse_args sub p args = Argparse.PDone ns [] →
  Argparse.parse_known_args sub p args = Argparse.PDone ns [].
Proof.
  unfold Argparse.parse_args.
  by destruct (Argparse.parse_known_args sub p args) as [ns' [|x extras]| |].
Qed.

Lemma parses_to_shapes argv ns :
  parses_to argv ns →
  ns = {["command" := PNone]}
  ∨ (∃ verbose verify : bool,
       ns = {["command" := PStr "download"; "verbose" := PBool verbose;
              "verify" := PBool verify]})
  ∨ (∃ path, ns = {["command" := PStr "transcribe"; "audio_path" := PStr path]}).
Proof.
  intros Hparse. apply parse_args_done, parse_known_args_done, reach_parser in Hparse.
  destruct Hparse as [->|(name & args & subns & Hname & Hsub & ->)]; [by left|].
  right. rewrite !elem_of_cons, elem_of_nil in Hname.
  destruct Hname as [->|[->|[]]].
  - left. change (subparsers "download" args)
      with (Argparse.parse_known_args no_subparsers download_parser args) in Hsub.
    apply parse_known_args_done in Hsub.
    assert (∃ verbose verify,
              Argparse.defaults download_parser = download_flags verbose verify)
      as Hdefaults by (by exists false, false).
    destruct (reach_download _ _ _ _ Hsub eq_refl Hdefaults) as (verbose & verify & ->).
    exists verbose, verify. by destruct verbose, verify.
  - right. change (subparsers "transcribe" args)
      with (Argparse.parse_known_args no_subparsers transcribe_parser args) in Hsub.
    apply parse_known_args_done, reach_transcribe in Hsub as (path & ->).
    by exists path.
Qed.

(** X19. What [parser.parse_args()] can return.  Every command line the
    parser accepts gives one of three namespaces: no command at all; the
    [download] command with its two flags, each [True] or [False]; or the
    [transcribe] command with one string as audio path.  So the
    attributes [main] reads are always there ([hasattr(args, 'verify')]
    never fails for [download]) and the audio path is always a string. *)
Theorem X19_accepted_namespaces argv ns :
  parses_to argv ns →
  ns = {["command" := PNone]}
  ∨ (∃ verbose verify : bool,
       ns = {["command" := PStr "download"; "verbose" := PBool verbose;
              "verify" := PBool verify]})
  ∨ (∃ path, ns = {["command" := PStr "transcribe"; "audio_path" := PStr path]}).
Proof. apply parses_to_shapes. Qed.

Lemma X19_witness :
  parses_to ["download"; "--verify"]
    {["command" := PStr "download"; "verbose" := PBool false; "verify" := PBool true]}
  ∧ parses_to ["transcribe"; "/home/user/sample.wav"]
      {["command" := PStr "transcribe"; "audio_path" := PStr "/home/user/sample.wav"]}.
Proof.
  assert (parses_to ["download"; "--verify"] (download_namespace false true)) as Hd
    by (by vm_compute).
  assert (∃ ns, parses_to ["transcribe"; "/home/user/sample.wav"] ns) as [ns Ht]
    by (eexists; by vm_compute).
  split; [exact Hd|].
  destruct (X19_accepted_namespaces _ _ Ht) as [->|[(verbose & verify & ->)|(path & ->)]].
  - by vm_compute in Ht.
  - by destruct verbose, verify; vm_compute in Ht.
  - assert (path = "/home/user/sample.wav") as ->; [|exact Ht].
    vm_compute in Ht. by injection Ht.
Defined.


(** ** What a run installs and keeps *)




(** ** When the whisper library is called *)

Section Ready.

Variable env : Env.

Lemma ensure_model_true s s1 :
  ensure_model env s = (Ok true, s1) → WHISPER_MODEL_PATH env ∈ fs s1.
Proof.
  rewrite ensure_model_eq.
  destruct (bool_decide (WHISPER_MODEL_PATH env ∈ fs s)) eqn:Hin.
  - intros [= <-]. by apply bool_decide_eq_true_1 in Hin.
  - apply download_model_true.
Qed.

Lemma grows_transcribe_block audio_path : grows (transcribe_block env audio_path).
Proof.
  unfold transcribe_block, load_model, model_transcribe, dict_item. grows_auto.
Qed.

Lemma no_whisper_event evs ev :
  Forall (λ ev, before_whisper ev = true) evs → ev ∈ evs → uses_whisper ev = true → False.
Proof.
  intros Hall Hin Huses. rewrite Forall_forall in Hall. specialize (Hall _ Hin).
  unfold before_whisper in Hall. by rewrite Huses in Hall.
Qed.

End Ready.

(** X22. [transcribe_audio] calls the whisper library only when it is
    ready: if [whisper.load_model] or [model.transcribe] is called at
    all, then the audio file existed, the model file exists and whisper
    is importable; after a failed download or installation the library is
    never reached. *)
Theorem X22_whisper_called_when_ready env audio_path s ev :
  ev ∈ since s (transcribe_audio env audio_path s).2 →
  uses_whisper ev = true →
  audio_path ∈ fs s
  ∧ WHISPER_MODEL_PATH env ∈ fs (transcribe_audio env audio_path s).2
  ∧ "whisper" ∈ modules (transcribe_audio env audio_path s).2
  ∧ ∃ s1 s2, ensure_model env s = (Ok true, s1) ∧ install_whisper env s1 = (Ok true, s2).
Proof.
  rewrite transcribe_audio_stages.
  destruct (bool_decide (audio_path ∈ fs s)) eqn:Haudio.
  2: { cbn [snd]. rewrite since_refl. by intros ?%elem_of_nil. }
  apply bool_decide_eq_true_1 in Haudio.
  destruct (ensure_model env s) as [[ok|e] s1] eqn:Hs1.
  2: { destruct (ensure_model_returns env s) as (? & ? & ?). congruence. }
  destruct (ensure_model_before_whisper env _ _ _ Hs1) as (evs1 & Ht1 & Hevs1).
  destruct ok.
  2: { cbn [snd]. rewrite (since_app _ _ _ Ht1). intros Hin Huses.
       destruct (no_whisper_event _ _ Hevs1 Hin Huses). }
  destruct (install_whisper env s1) as [[installed|e] s2] eqn:Hs2.
  2: { destruct (install_whisper_returns env s1) as (? & ? & ?). congruence. }
  destruct (install_whisper_before_whisper env _ _ _ Hs2) as (evs2 & Ht2 & Hevs2).
  assert (Forall (λ ev, before_whisper ev = true) (since s s2)) as Hquiet.
  { rewrite (since_app s s2 (evs1 ++ evs2)) by (by rewrite Ht2, Ht1, app_assoc).
    by apply Forall_app. }
  destruct installed.
  2: { cbn [snd]. intros Hin Huses. destruct (no_whisper_event _ _ Hquiet Hin Huses). }
  destruct (bool_decide ("whisper" ∈ modules s2)) eqn:Himport.
  2: { cbn [snd]. intros Hin Huses. destruct (no_whisper_event _ _ Hquiet Hin Huses). }
  apply bool_decide_eq_true_1 in Himport.
  intros _ _.
  destruct (transcribe_block env audio_path s2) as [r s3] eqn:Hs3. cbn [snd].
  destruct (grows_transcribe_block env audio_path _ _ _ Hs3) as (Hfs3 & Hmods3 & _).
  destruct (grows_install_whisper env _ _ _ Hs2) as (Hfs2 & _ & _).
  split; [done|]. split.
  { apply Hfs3, Hfs2. by eapply ensure_model_true. }
  split; [by apply Hmods3|]. by exists s1, s2.
Qed.

Lemma X22_witness :
  ELoadModel "tiny"
    ∈ since first_use_state
        (transcribe_audio stub_env "/home/user/sample.wav" first_use_state).2
  ∧ WHISPER_MODEL_PATH stub_env
      ∈ fs (transcribe_audio stub_env "/home/user/sample.wav" first_use_state).2
  ∧ "whisper" ∈ modules (transcribe_audio stub_env "/home/user/sample.wav" first_use_state).2.
Proof.
  assert (ELoadModel "tiny"
            ∈ since first_use_state
                (transcribe_audio stub_env "/home/user/sample.wav" first_use_state).2)
    as Hin.
  { set (evs := since first_use_state
                  (transcribe_audio stub_env "/home/user/sample.wav" first_use_state).2).
    assert (evs = take 12 evs ++ ELoadModel "tiny" :: drop 13 evs) as ->
      by (by vm_compute).
    apply elem_of_app. right. apply elem_of_cons. by left. }
  split; [exact Hin|].
  destruct (X22_whisper_called_when_ready stub_env _ _ _ Hin eq_refl)
    as (_ & Hmodel & Hwhisper & _).
  by split.
Defined.

(** ** The fallback progress bar *)

Section FallbackBar.

Variable percent : Z → Z → exn + Z.

Lemma update_to_counters b bsize tsize self :
  let self' := (Fallback.update_to percent b bsize tsize self).1.2 in
  Fallback.n self' = b * bsize
  ∧ Fallback.total self' = default (Fallback.total self) tsize
  ∧ Fallback.desc self' = Fallback.desc self.
Proof.
  unfold Fallback.update_to, Fallback.update.
  destruct tsize as [tsize|]; cbn [Fallback.total Fallback.n Fallback.desc default];
    destruct (if _ =? 0 then _ else _); cbn; repeat split; lia.
Qed.

Lemma update_to_writes b bsize tsize self self' out :
  Fallback.update_to percent b bsize tsize self = (Ok tt, self', out) →
  List.length out = 1%nat.
Proof.
  unfold Fallback.update_to, Fallback.update.
  destruct (if _ =? 0 then _ else _); [done|]. by intros [= _ <-].
Qed.

Lemma report_length calls self self' out :
  Fallback.report percent calls self = (Ok tt, self', out) →
  List.length out = List.length calls.
Proof.
  revert self self' out.
  induction calls as [|[[b bsize] tsize] calls IH]; intros self self' out.
  - by intros [= _ <-].
  - cbn [Fallback.report].
    destruct (Fallback.update_to percent b bsize tsize self) as [[[[]|e] self1] out1] eqn:E;
      [|done].
    destruct (Fallback.report percent calls self1) as [[r self2] out2] eqn:E2.
    intros [= -> <- <-].
    rewrite length_app, (update_to_writes _ _ _ _ _ _ E), (IH _ _ _ E2). done.
Qed.

Lemma report_last calls b bsize tsize self self' out :
  Fallback.report percent (calls ++ [(b, bsize, tsize)]) self = (Ok tt, self', out) →
  Fallback.n self' = b * bsize.
Proof.
  revert self self' out.
  induction calls as [|[[b0 bsize0] tsize0] calls IH]; intros self self' out.
  - cbn [app Fallback.report].
    pose proof (update_to_counters b bsize tsize self) as (Hn & _).
    destruct (Fallback.update_to percent b bsize tsize self) as [[[[]|e] self1] out1];
      [|done].
    by intros [= <- _].
  - cbn [app Fallback.report].
    destruct (Fallback.update_to percent b0 bsize0 tsize0 self) as [[[[]|e] self1] out1];
      [|done].
    destruct (Fallback.report percent (calls ++ [(b, bsize, tsize)]) self1)
      as [[r self2] out2] eqn:E2.
    intros [= -> <- _]. by eapply IH.
Qed.

End FallbackBar.

(** X18. The fallback progress bar of [DownloadProgressBar].  Whatever
    the percentage computes to, [update_to(b, bsize, tsize)] leaves the
    counter at the absolute position [b * bsize], independent of where it
    stood, and the total at [tsize] when one is given; so after a run of
    [reporthook] calls the counter is the position of the last call.  A
    total of 0 is guarded: the bar then shows 0% without dividing.  The
    [with] block of line 90 writes the start line before its body and the
    completion line after it, also when the body raises, and passes the
    body's result or exception on. *)
Theorem X18_fallback_progress_bar (percent : Z → Z → exn + Z) :
  (∀ b bsize tsize self,
     let self' := (Fallback.update_to percent b bsize tsize self).1.2 in
     Fallback.n self' = b * bsize
     ∧ Fallback.total self' = default (Fallback.total self) tsize)
  ∧ (∀ calls b bsize tsize self,
       let run := Fallback.report percent (calls ++ [(b, bsize, tsize)]) self in
       run.1.1 = Ok tt →
       Fallback.n run.1.2 = b * bsize
       ∧ List.length run.2 = S (List.length calls))
  ∧ (∀ b bsize self,
       Fallback.update_to percent b bsize (Some 0) self
       = (Ok tt,
          {| Fallback.total := 0; Fallback.n := b * bsize;
             Fallback.unit := Fallback.unit self; Fallback.desc := Fallback.desc self;
             Fallback.ncols := Fallback.ncols self |},
          [Fallback.cr +:+ Fallback.desc self +:+ ": 0% completed"]))
  ∧ (∀ A (body : Fallback.bar → Fallback.outcome A),
       ∃ self,
         Fallback.n self = 0 ∧ Fallback.total self = 100
         ∧ (Fallback.with_bar body).1.1 = (body self).1.1
         ∧ (Fallback.with_bar body).2
           = ["Downloading started..." +:+ Fallback.nl]
             ++ (body self).2
             ++ [Fallback.nl +:+ "Download completed!" +:+ Fallback.nl]).
Proof.
  split; [|split; [|split]].
  - intros b bsize tsize self.
    destruct (update_to_counters percent b bsize tsize self) as (Hn & Ht & _).
    by split.
  - intros calls b bsize tsize self run Hok. subst run.
    destruct (Fallback.report percent (calls ++ [(b, bsize, tsize)]) self)
      as [[r self'] out] eqn:E.
    cbn [fst snd] in *. subst r. split; [by eapply report_last|].
    rewrite (report_length _ _ _ _ _ E), length_app. simpl. lia.
  - intros b bsize self. unfold Fallback.update_to, Fallback.update.
    cbn. do 3 f_equal. lia.
  - intros A body.
    exists (Fallback.__init__ None (Some "B") (Some "Downloading") None).1.
    split; [reflexivity|]. split; [reflexivity|].
    unfold Fallback.with_bar. cbn.
    destruct (body _) as [[r self'] out]. by split.
Qed.
